(** * onnxcli [inspect]: the lookup-and-print engine

    A shallow embedding of [onnxcli/inspect.py] and the properties its
    specification states about it.  Python's [print] is modelled by a
    writer of output lines, [raise] by an outcome that ends the
    computation; the helpers imported from [onnxcli.common] and the
    [str] of protobuf containers are taken as an environment. *)

From Stdlib Require Import List String Ascii ZArith Bool Arith Lia.
From Stdlib Require Import DecimalString Sorted Permutation.
From Stdlib Require Import Floats.
Import ListNotations.

Local Open Scope string_scope.
Local Open Scope list_scope.
Local Open Scope Z_scope.

(** String concatenation, Python's [+] on [str]. *)
Infix "+++" := String.append (at level 60, right associativity).

(* ------------------------------------------------------------------ *)
(** ** A small Python run-time                                          *)
(* ------------------------------------------------------------------ *)

Module Py.

(** Exceptions the program can end with. [ValueError] is the only one
    the source constructs itself, so it carries its message; the others
    are raised by the interpreter. *)
Inductive exn : Type :=
| ValueError (msg : string)
| IndexError
| TypeError (msg : string)
| AttributeError
| LoadError.

Inductive outcome (A : Type) : Type :=
| Ok (a : A)
| Raise (e : exn).
Arguments Ok {A} a.
Arguments Raise {A} e.

(** A computation: the lines written to standard output, in order, and
    how the computation ended. *)
Definition M (A : Type) : Type := (list string * outcome A)%type.

Definition ret {A} (a : A) : M A := ([], Ok a).

Definition bind {A B} (m : M A) (k : A -> M B) : M B :=
  match m with
  | (out, Ok a) => let (out', r) := k a in (out ++ out', r)
  | (out, Raise e) => (out, Raise e)
  end.

Definition raise {A} (e : exn) : M A := ([], Raise e).

Definition lift {A} (r : outcome A) : M A := ([], r).

(** [print(a, b, ...)]: the arguments' [str], separated by one space. *)
Definition print (args : list string) : M unit :=
  ([String.concat " " args], Ok tt).

(** [if c: body] for a body that only has effects. *)
Definition when (c : bool) (body : M unit) : M unit :=
  if c then body else ret tt.

(** [for x in l: body(x)] *)
Fixpoint for_each {A} (l : list A) (body : A -> M unit) : M unit :=
  match l with
  | [] => ret tt
  | x :: rest => bind (body x) (fun _ => for_each rest body)
  end.

(** [for x in l: s = body(x, s)], the loop's variables threaded as [s]. *)
Fixpoint for_fold {A S} (l : list A) (s : S) (body : A -> S -> M S) : M S :=
  match l with
  | [] => ret s
  | x :: rest => bind (body x s) (fun s' => for_fold rest s' body)
  end.

(** [len(l)] *)
Definition len {A} (l : list A) : Z := Z.of_nat (List.length l).

(** [l[i]] on a list or a protobuf repeated field: a negative index
    counts from the end, and an index outside [-len, len) raises
    [IndexError]. *)
Definition getitem {A} (l : list A) (i : Z) : M A :=
  let j := if i <? 0 then len l + i else i in
  if j <? 0 then raise IndexError
  else match nth_error l (Z.to_nat j) with
       | Some x => ret x
       | None => raise IndexError
       end.

(** [str(n)] of an integer. *)
Definition str_int (n : Z) : string := NilZero.string_of_int (Z.to_int n).

(** [s * n] *)
Fixpoint str_mul (s : string) (n : nat) : string :=
  match n with
  | O => ""
  | S n' => s +++ str_mul s n'
  end.

(** The values an attribute of [args] can hold. *)
Inductive value : Type :=
| PyNone
| PyBool (b : bool).

(** [v is None] *)
Definition is_None (v : value) : bool :=
  match v with PyNone => true | PyBool _ => false end.

(** Truth value of [v] in a condition. *)
Definition truthy (v : value) : bool :=
  match v with PyNone => false | PyBool b => b end.

End Py.
Import Py.

Declare Scope py_scope.
Delimit Scope py_scope with py.
Notation "x <- m ;; k" := (bind m (fun x => k))
  (at level 61, m at next level, right associativity) : py_scope.
Notation "m ;; k" := (bind m (fun _ => k))
  (at level 61, right associativity) : py_scope.
Local Open Scope py_scope.

(* ------------------------------------------------------------------ *)
(** ** The data model: the parts of an ONNX model the command reads     *)
(* ------------------------------------------------------------------ *)

Inductive Dimension : Type :=
| DimValue (v : Z)
| DimParam (p : string)
| DimUnset.

Record ValueInfoProto : Type := mkValueInfo {
  vi_name : string;
  vi_elem_type : Z;
  vi_shape : list Dimension
}.

Record TensorProto : Type := mkTensor {
  t_name : string;
  t_data_type : Z;
  t_dims : list Z;
  t_float_data : list float
}.

Inductive AttributeValue : Type :=
| AttrInt (i : Z)
| AttrFloat (f : float)
| AttrString (s : string)
| AttrInts (l : list Z)
| AttrTensor (t : TensorProto).

Record AttributeProto : Type := mkAttribute {
  a_name : string;
  a_value : AttributeValue
}.

Record NodeProto : Type := mkNode {
  n_name : string;
  n_op_type : string;
  n_input : list string;
  n_output : list string;
  n_attribute : list AttributeProto
}.

Record SparseTensorProto : Type := mkSparse {
  sp_values : TensorProto;
  sp_indices : TensorProto;
  sp_dims : list Z
}.

Record TensorAnnotation : Type := mkAnnotation {
  qa_tensor_name : string;
  qa_quant_parameter_tensor_names : list (string * string)
}.

Record GraphProto : Type := mkGraph {
  g_name : string;
  g_node : list NodeProto;
  g_input : list ValueInfoProto;
  g_output : list ValueInfoProto;
  g_value_info : list ValueInfoProto;
  g_initializer : list TensorProto;
  g_sparse_initializer : list SparseTensorProto;
  g_quantization_annotation : list TensorAnnotation
}.

Record OperatorSetIdProto : Type := mkOpset {
  os_domain : string;
  os_version : Z
}.

Record StringStringEntryProto : Type := mkEntry {
  key : string;
  value_ : string
}.

Record ModelProto : Type := mkModel {
  ir_version : Z;
  opset_import : list OperatorSetIdProto;
  producer_name : string;
  producer_version : string;
  domain : string;
  doc_string : string;
  metadata_props : list StringStringEntryProto;
  graph : GraphProto
}.

(** The parsed command line ([argparse.Namespace]). *)
Record Namespace : Type := mkArgs {
  input_path : string;
  meta : value;
  node : value;
  tensor : value;
  indices : list Z;
  names : list string;
  detail : value
}.

(** What [add_args] makes the parser produce: the four [store_true]
    options are always booleans. *)
Definition parsed (path : string) (m n t : bool) (idx : list Z)
    (nms : list string) (d : bool) : Namespace :=
  mkArgs path (PyBool m) (PyBool n) (PyBool t) idx nms (PyBool d).

(** What the program takes from outside [inspect.py]: the two helpers of
    [onnxcli.common] (as the text [format] makes of their results) and the
    text protobuf gives its containers. *)
Record Env : Type := mkEnv {
  dtype : Z -> string;
  shape : list Dimension -> string;
  str_opset_import : list OperatorSetIdProto -> string;
  str_strings : list string -> string;
  str_dims : list Z -> string;
  str_floats : list float -> string;
  str_attributes : list AttributeProto -> string
}.

(* ------------------------------------------------------------------ *)
(** ** The program                                                      *)
(* ------------------------------------------------------------------ *)

(** The double-quote character of the format strings. *)
Definition dq : string := String (ascii_of_nat 34) "".

(** ["-" * 80] *)
Definition rule : string := str_mul "-" 80.

Section Program.

Variable E : Env.

(** [onnx.load_model]: the model stored at a path, or a failure. *)
Variable load_model : string -> outcome ModelProto.

(** [print_meta(m)].  The last [print] is given the format string and
    the two fields as three arguments. *)
Definition print_meta (m : ModelProto) : M unit :=
  print ["Meta information:"] ;;
  print [rule] ;;
  print ["  IR Version: " +++ str_int (ir_version m)] ;;
  print ["  Opset Import: " +++ str_opset_import E (opset_import m)] ;;
  print ["  Producer name: " +++ producer_name m] ;;
  print ["  Producer version: " +++ producer_version m] ;;
  print ["  Domain: " +++ domain m] ;;
  print ["  Doc string: " +++ doc_string m] ;;
  for_each (metadata_props m) (fun i =>
    print ["  meta.{} = {}"; key i; value_ i]).

(** [print_basic(g)] *)
Definition print_basic (g : GraphProto) : M unit :=
  print ["  Graph name: " +++ str_int (Z.of_nat (String.length (g_name g)))] ;;
  print ["  Graph inputs: " +++ str_int (len (g_input g))] ;;
  print ["  Graph outputs: " +++ str_int (len (g_output g))] ;;
  print ["  Nodes in total: " +++ str_int (len (g_node g))] ;;
  print ["  ValueInfo in total: " +++ str_int (len (g_value_info g))] ;;
  print ["  Initializers in total: " +++ str_int (len (g_initializer g))] ;;
  print ["  Sparse Initializers in total: "
           +++ str_int (len (g_sparse_initializer g))] ;;
  print ["  Quantization in total: "
           +++ str_int (len (g_quantization_annotation g))].

(** The objects [run] passes around. *)
Inductive object : Type :=
| ObjNamespace (a : Namespace)
| ObjGraph (g : GraphProto).

(** A call [print_basic(a1, ..., an)].  The function is declared with
    the single parameter [g]; Python binds the arguments before it runs
    the body and raises [TypeError] when their number is not one. *)
Definition call_print_basic (actuals : list object) : M unit :=
  match actuals with
  | [ObjGraph g] => print_basic g
  | [ObjNamespace _] => raise AttributeError
  | [] => raise (TypeError
            "print_basic() missing 1 required positional argument: 'g'")
  | _ => raise (TypeError
            ("print_basic() takes 1 positional argument but "
               +++ str_int (len actuals) +++ " were given"))
  end.

(** The two local functions of [print_tensor]. *)
Definition print_value_info (t : ValueInfoProto) : M unit :=
  let txt := "  ValueInfo " +++ dq +++ vi_name t +++ dq +++ ":" in
  let txt := txt +++ " type " +++ dtype E (vi_elem_type t) +++ "," in
  let txt := txt +++ " shape " +++ shape E (vi_shape t) +++ "," in
  print [txt].

Definition print_initializer (t : TensorProto) (detail : bool) : M unit :=
  let txt := "  Initializer " +++ dq +++ t_name t +++ dq +++ ":" in
  let txt := txt +++ " type " +++ dtype E (t_data_type t) +++ "," in
  let txt := txt +++ " shape " +++ str_dims E (t_dims t) +++ "," in
  print [txt] ;;
  when detail (print ["    float data: " +++ str_floats E (t_float_data t)]).

(** The body of [for idx in indices] in [print_tensor]. *)
Definition tensor_index_body (g : GraphProto) (detail : bool) (idx : Z)
    : M unit :=
  let printed_any := false in
  printed_any <-
    (if idx <? len (g_value_info g) then
       let printed_any := true in
       t <- getitem (g_value_info g) idx ;;
       print_value_info t ;;
       ret printed_any
     else ret printed_any) ;;
  printed_any <-
    (if idx <? len (g_initializer g) then
       t <- getitem (g_initializer g) idx ;;
       print_initializer t detail ;;
       ret true
     else ret printed_any) ;;
  printed_any <-
    (if idx <? len (g_input g) then
       t <- getitem (g_input g) idx ;;
       print_value_info t ;;
       ret true
     else ret printed_any) ;;
  printed_any <-
    (if idx <? len (g_output g) then
       t <- getitem (g_output g) idx ;;
       print_value_info t ;;
       ret true
     else ret printed_any) ;;
  when (negb printed_any)
    (raise (ValueError
       "indices {} out of range, check the total size of tensors")).

(** [for i in coll: if i.name == name: emit(i); printed_any = True; break] *)
Fixpoint scan_name {A} (name_of : A -> string) (emit : A -> M unit)
    (name : string) (coll : list A) (printed_any : bool) : M bool :=
  match coll with
  | [] => ret printed_any
  | i :: rest =>
      if String.eqb (name_of i) name then emit i ;; ret true
      else scan_name name_of emit name rest printed_any
  end.

(** The body of [for name in names] in [print_tensor]. *)
Definition tensor_name_body (g : GraphProto) (detail : bool) (name : string)
    (printed_any : bool) : M bool :=
  printed_any <-
    scan_name vi_name print_value_info name (g_value_info g) printed_any ;;
  printed_any <-
    scan_name t_name (fun i => print_initializer i detail) name
      (g_initializer g) printed_any ;;
  printed_any <-
    scan_name vi_name print_value_info name (g_input g) printed_any ;;
  scan_name vi_name print_value_info name (g_output g) printed_any.

(** [print_tensor(g, indices, names, detail)].  After the loop over
    [names] the variable [name] still holds the last name. *)
Definition print_tensor (g : GraphProto) (indices : list Z)
    (names : list string) (detail : bool) : M unit :=
  print ["Tensor information:"] ;;
  print [rule] ;;
  if len indices >? 0 then
    for_each indices (tensor_index_body g detail)
  else if len names >? 0 then
    let printed_any := false in
    printed_any <- for_fold names printed_any (tensor_name_body g detail) ;;
    let name := last names "" in
    when (negb printed_any)
      (raise (ValueError ("No tensor found with name " +++ name)))
  else
    for_each (g_value_info g) print_value_info ;;
    for_each (g_initializer g) (fun t => print_initializer t false).

(** The local function of [print_nodes]. *)
Definition print_node (n : NodeProto) (detail : bool) : M unit :=
  let txt := "  Node " +++ dq +++ n_name n +++ dq +++ ":" in
  let txt := txt +++ " type " +++ dq +++ n_op_type n +++ dq +++ "," in
  let txt := txt +++ " inputs " +++ dq +++ str_strings E (n_input n)
                 +++ dq +++ "," in
  let txt := txt +++ " outputs " +++ dq +++ str_strings E (n_output n)
                 +++ dq in
  print [txt] ;;
  when (detail && (len (n_attribute n) >? 0))
    (print ["    attributes: " +++ str_attributes E (n_attribute n)]).

(** The body of [for idx in indices] in [print_nodes]. *)
Definition node_index_body (g : GraphProto) (detail : bool) (idx : Z)
    : M unit :=
  when (idx >=? len (g_node g))
    (raise (ValueError
       ("indices " +++ str_int idx +++ " out of range, node in total "
          +++ str_int (len (g_node g))))) ;;
  n <- getitem (g_node g) idx ;;
  print_node n detail.

(** The body of [for name in names] in [print_nodes]. *)
Definition node_name_body (g : GraphProto) (detail : bool) (name : string)
    (found_any : bool) : M bool :=
  scan_name n_name (fun n => print_node n detail) name (g_node g) found_any.

(** [collections.Counter(l)]: a dictionary from each element to the
    number of its occurrences, its keys in the order they were first
    inserted. *)
Fixpoint counter_incr (c : list (string * nat)) (k : string)
    : list (string * nat) :=
  match c with
  | [] => [(k, 1%nat)]
  | (k', n) :: rest =>
      if String.eqb k' k then (k', S n) :: rest
      else (k', n) :: counter_incr rest k
  end.

Definition Counter (l : list string) : list (string * nat) :=
  fold_left counter_incr l [].

(** [Counter.most_common()] is
    [sorted(self.items(), key=itemgetter(1), reverse=True)]: a stable
    sort by descending count, items of equal count staying in the order
    of the dictionary.  [insert_desc x l] puts [x], which stood before
    every item of [l], in front of the first item whose count is not
    greater. *)
Fixpoint insert_desc (x : string * nat) (l : list (string * nat))
    : list (string * nat) :=
  match l with
  | [] => [x]
  | y :: rest =>
      if (snd y <=? snd x)%nat then x :: y :: rest
      else y :: insert_desc x rest
  end.

Definition most_common (c : list (string * nat)) : list (string * nat) :=
  fold_right insert_desc [] c.

(** [print_nodes(g, indices, names, detail)] *)
Definition print_nodes (g : GraphProto) (indices : list Z)
    (names : list string) (detail : bool) : M unit :=
  print ["Node information:"] ;;
  print [rule] ;;
  if len indices >? 0 then
    for_each indices (node_index_body g detail)
  else if len names >? 0 then
    let found_any := false in
    found_any <- for_fold names found_any (node_name_body g detail) ;;
    let name := last names "" in
    when (negb found_any)
      (raise (ValueError ("No node found with name " +++ name)))
  else
    let ops := Counter (map n_op_type (g_node g)) in
    for_each (most_common ops) (fun '(op, count) =>
      print ["  Node type " +++ dq +++ op +++ dq +++ " has: "
               +++ str_int (Z.of_nat count)]) ;;
    print [rule] ;;
    for_each (g_node g) (fun node => print_node node false).

(** The three checks at the head of [run]. *)
Definition run_checks (args : Namespace) : M unit :=
  let has_indices := negb (len (indices args) =? 0) in
  let has_names := negb (len (names args) =? 0) in
  let no_tensor_or_node := is_None (node args) && is_None (tensor args) in
  when (has_indices && has_names)
    (raise (ValueError "Can NOT set both --indices and --names")) ;;
  when ((has_indices || has_indices) && no_tensor_or_node)
    (raise (ValueError
       "Can NOT set --indices or --names without --node or --tensor")) ;;
  when ((negb has_indices && negb has_names) && truthy (detail args))
    (raise (ValueError "Can NOT set --detail without --indices or --names")).

(** [InspectCmd.run(args)].  The calls to the logger write nothing to
    standard output, and a failure of [onnx.checker.check_model] is
    caught and only logged, so neither appears here. *)
Definition run (args : Namespace) : M unit :=
  run_checks args ;;
  m <- lift (load_model (input_path args)) ;;
  let g := graph m in
  let printed_any := false in
  printed_any <-
    (if truthy (meta args) then print_meta m ;; ret true
     else ret printed_any) ;;
  printed_any <-
    (if truthy (node args) then
       print_nodes g (indices args) (names args) (truthy (detail args)) ;;
       ret true
     else ret printed_any) ;;
  printed_any <-
    (if truthy (tensor args) then
       print_tensor g (indices args) (names args) (truthy (detail args)) ;;
       ret true
     else ret printed_any) ;;
  when (negb printed_any)
    (call_print_basic [ObjNamespace args; ObjGraph g]).

End Program.

(* ------------------------------------------------------------------ *)
(** ** Vocabulary of the specification                                  *)
(* ------------------------------------------------------------------ *)

(** The lines a computation wrote, and how it ended. *)
Definition rendered {A} (m : M A) : list string := fst m.
Definition ending {A} (m : M A) : outcome A := snd m.

(** The error kinds of the specification, as the exceptions the source
    raises for them. *)
Definition ConflictingSelectors : exn :=
  ValueError "Can NOT set both --indices and --names".
Definition SelectorWithoutTarget : exn :=
  ValueError "Can NOT set --indices or --names without --node or --tensor".
Definition DetailWithoutSelector : exn :=
  ValueError "Can NOT set --detail without --indices or --names".

(** [contains sub s]: the text [sub] occurs in [s]. *)
Fixpoint contains (sub s : string) : bool :=
  String.prefix sub s ||
  match s with
  | EmptyString => false
  | String _ s' => contains sub s'
  end.

(** The two headers. *)
Definition tensor_header : list string := ["Tensor information:"; rule].
Definition node_header : list string := ["Node information:"; rule].

(** A zero-based index is valid in a collection when it is a position of
    it. *)
Definition valid {A} (i : Z) (coll : list A) : bool :=
  (0 <=? i) && (i <? len coll).

(** The match an index has in one collection: the text of the element at
    that position, nothing when the index is not valid there. *)
Definition match_at {A} (emit : A -> M unit) (coll : list A) (i : Z)
    : list string :=
  if valid i coll then
    match nth_error coll (Z.to_nat i) with
    | Some x => rendered (emit x)
    | None => []
    end
  else [].

(** The matches of an index under the tensor target: one from each
    collection where it is valid, in priority order. *)
Definition tensor_index_matches (E : Env) (g : GraphProto) (detail : bool)
    (i : Z) : list string :=
  match_at (print_value_info E) (g_value_info g) i
  ++ match_at (fun t => print_initializer E t detail) (g_initializer g) i
  ++ match_at (print_value_info E) (g_input g) i
  ++ match_at (print_value_info E) (g_output g) i.

Definition valid_somewhere (g : GraphProto) (i : Z) : bool :=
  valid i (g_value_info g) || valid i (g_initializer g)
  || valid i (g_input g) || valid i (g_output g).

(** The element a negative index reaches, counted from the end. *)
Definition from_end {A} (coll : list A) (i : Z) : option A :=
  nth_error coll (Z.to_nat (len coll + i)).

(** The first element of a collection that bears a name. *)
Definition first_named {A} (name_of : A -> string) (name : string)
    (coll : list A) : option A :=
  find (fun x => String.eqb (name_of x) name) coll.

(** The match a name has in one collection: the text of its first
    bearer, nothing when no element bears it. *)
Definition match_named {A} (name_of : A -> string) (emit : A -> M unit)
    (name : string) (coll : list A) : list string :=
  match first_named name_of name coll with
  | Some x => rendered (emit x)
  | None => []
  end.

Definition has_name {A} (name_of : A -> string) (name : string)
    (coll : list A) : bool :=
  existsb (fun x => String.eqb (name_of x) name) coll.

Definition tensor_name_matches (E : Env) (g : GraphProto) (detail : bool)
    (name : string) : list string :=
  match_named vi_name (print_value_info E) name (g_value_info g)
  ++ match_named t_name (fun t => print_initializer E t detail) name
       (g_initializer g)
  ++ match_named vi_name (print_value_info E) name (g_input g)
  ++ match_named vi_name (print_value_info E) name (g_output g).

Definition tensor_has_name (g : GraphProto) (name : string) : bool :=
  has_name vi_name name (g_value_info g)
  || has_name t_name name (g_initializer g)
  || has_name vi_name name (g_input g)
  || has_name vi_name name (g_output g).

(** Position of the first occurrence of [k] in [l] ([length l] when it
    does not occur). *)
Fixpoint first_index (k : string) (l : list string) : nat :=
  match l with
  | [] => O
  | x :: rest => if String.eqb x k then O else S (first_index k rest)
  end.

(** Number of occurrences of [k] in [l]. *)
Definition occurrences (k : string) (l : list string) : nat :=
  count_occ string_dec l k.

(** The order of the histogram: a greater count first, and among equal
    counts the operation type met first in the node list. *)
Definition hist_before (ops : list string) (x y : string * nat) : Prop :=
  (snd y < snd x)%nat
  \/ (snd x = snd y /\ (first_index (fst x) ops < first_index (fst y) ops)%nat).

Definition hist_line (x : string * nat) : string :=
  "  Node type " +++ dq +++ fst x +++ dq +++ " has: "
    +++ str_int (Z.of_nat (snd x)).

(** An environment with the plainest renderings, to run the program on
    examples. *)
Definition plain_env : Env :=
  mkEnv (fun z => str_int z) (fun _ => "[]") (fun _ => "[]") (fun _ => "[]")
        (fun _ => "[]") (fun _ => "[]") (fun _ => "[]").

Definition empty_graph : GraphProto := mkGraph "" [] [] [] [] [] [] [].

Definition empty_model : ModelProto :=
  mkModel 7 [] "" "" "" "" [] empty_graph.

(** A computation that only prints: it ends normally with [tt]. *)
Definition prints (m : M unit) : Prop := snd m = Ok tt.

(** The message of an exception ([str(e)]). *)
Definition message (e : exn) : string :=
  match e with
  | ValueError msg | TypeError msg => msg
  | _ => ""
  end.

(** The two out-of-range errors, as the source builds them. *)
Definition tensor_index_error : exn :=
  ValueError "indices {} out of range, check the total size of tensors".

Definition node_index_error (g : GraphProto) (i : Z) : exn :=
  ValueError ("indices " +++ str_int i +++ " out of range, node in total "
                +++ str_int (len (g_node g))).

(** The element a negative index reaches in a collection, when it
    reaches one. *)
Definition counted_from_end {A} (coll : list A) (i : Z) : option A :=
  if 0 <=? len coll + i then from_end coll i else None.

(** Keys and total count of a counter, and membership in a list of keys. *)
Definition keys (c : list (string * nat)) : list string := map fst c.

Definition total (c : list (string * nat)) : nat := list_sum (map snd c).

Definition mem (k : string) (l : list string) : bool :=
  existsb (String.eqb k) l.

(** [a] is first met before [b] in [l]. *)
Definition met_before (l : list string) (a b : string) : Prop :=
  (first_index a l < first_index b l)%nat.

(** The order a stable descending sort leaves: a greater count first,
    and among equal counts the order [T] the items came in. *)
Definition desc_then (T : string * nat -> string * nat -> Prop)
    (x y : string * nat) : Prop :=
  (snd y < snd x)%nat \/ (snd x = snd y /\ T x y).

(** Sample graphs. *)
Definition vi_x : ValueInfoProto := mkValueInfo "x" 1 [DimValue 1; DimValue 3].
Definition vi_y : ValueInfoProto := mkValueInfo "y" 1 [DimParam "N"].
Definition init_w : TensorProto := mkTensor "w" 1 [3; 3] [].
Definition init_b : TensorProto := mkTensor "b" 1 [3] [].

(** Two initializers and nothing else. *)
Definition two_initializers : GraphProto :=
  mkGraph "g" [] [] [] [] [init_w; init_b] [] [].

(** One element in each of the four tensor collections. *)
Definition one_of_each : GraphProto :=
  mkGraph "g" [] [vi_x] [vi_y] [vi_x] [init_w] [] [].

(** A graph with one node, named a. *)
Definition node_a : NodeProto := mkNode "a" "Conv" ["x"; "w"] ["y"] [].
Definition one_node : GraphProto := mkGraph "g" [node_a] [] [] [] [] [] [].

(** Two nodes that bear the same name, and a third. *)
Definition node_a2 : NodeProto := mkNode "a" "Relu" ["y"] ["z"] [].
Definition node_c : NodeProto :=
  mkNode "c" "Add" ["z"; "b"] ["out"] [mkAttribute "axis" (AttrInt 1)].
Definition three_nodes : GraphProto :=
  mkGraph "g" [node_a; node_a2; node_c] [] [] [] [] [] [].

(** A model around a graph, and loaders that always hand out one model or
    always fail. *)
Definition model_of (g : GraphProto) : ModelProto :=
  mkModel 7 [mkOpset "" 13] "onnx" "1.0" "" "" [mkEntry "author" "alice"] g.
Definition loads (m : ModelProto) : string -> outcome ModelProto :=
  fun _ => Ok m.
Definition load_fails : string -> outcome ModelProto :=
  fun _ => Raise LoadError.

(** The error of the fallback call, as Python words it. *)
Definition fallback_error : exn :=
  TypeError "print_basic() takes 1 positional argument but 2 were given".

(** Counts that never increase along a list of items. *)
Definition count_ge (x y : string * nat) : Prop := (snd y <= snd x)%nat.

(* ------------------------------------------------------------------ *)
(** ** Laws of the run-time                                             *)
(* ------------------------------------------------------------------ *)

Lemma bind_ok {A B} (out : list string) (a : A) (k : A -> M B) :
  bind (out, Ok a) k = (out ++ fst (k a), snd (k a)).
Proof. unfold bind. destruct (k a); reflexivity. Qed.

Lemma bind_raise {A B} (out : list string) (e : exn) (k : A -> M B) :
  bind (out, Raise e) k = (out, Raise e).
Proof. reflexivity. Qed.

Lemma bind_ret_l {A B} (a : A) (k : A -> M B) : bind (ret a) k = k a.
Proof. unfold ret. rewrite bind_ok. destruct (k a); reflexivity. Qed.

Lemma prints_eq (m : M unit) : prints m -> m = (rendered m, Ok tt).
Proof. destruct m as [o r]; unfold prints, rendered; simpl; now intros ->. Qed.

Lemma bind_prints {B} (m : M unit) (k : unit -> M B) :
  prints m -> bind m k = (rendered m ++ fst (k tt), snd (k tt)).
Proof. intros H. rewrite (prints_eq m H) at 1. apply bind_ok. Qed.

Lemma for_each_prints {A} (body : A -> M unit) (l : list A) :
  (forall x, prints (body x)) ->
  for_each l body = (flat_map (fun x => rendered (body x)) l, Ok tt).
Proof.
  intros Hb. induction l as [|x l IH]; simpl; [reflexivity|].
  rewrite (bind_prints _ _ (Hb x)), IH. reflexivity.
Qed.

(** A loop runs its body on a prefix that only prints, then goes on. *)
Lemma for_each_app {A} (body : A -> M unit) (l1 l2 : list A) :
  for_each (l1 ++ l2) body = bind (for_each l1 body) (fun _ => for_each l2 body).
Proof.
  induction l1 as [|x l1 IH]; simpl.
  - now destruct (for_each l2 body).
  - rewrite IH. destruct (body x) as [o [[]|e]]; simpl; [|reflexivity].
    destruct (for_each l1 body) as [o1 [[]|e1]]; simpl; [|reflexivity].
    destruct (for_each l2 body) as [o2 r2]; simpl.
    now rewrite app_assoc.
Qed.

Lemma len_nonneg {A} (l : list A) : 0 <= len l.
Proof. unfold len. apply Nat2Z.is_nonneg. Qed.

Lemma len_cons_pos {A} (x : A) (l : list A) : (len (x :: l) >? 0) = true.
Proof.
  unfold len. cbn [List.length]. apply Z.gtb_lt. lia.
Qed.

Lemma len_pos_iff {A} (l : list A) : (len l >? 0) = true <-> l <> [].
Proof.
  destruct l; [|split; [discriminate | intros _; apply len_cons_pos]].
  split; [discriminate | congruence].
Qed.

(** Indexing at a valid position never fails. *)
Lemma getitem_valid {A} (coll : list A) (i : Z) :
  valid i coll = true ->
  exists x, nth_error coll (Z.to_nat i) = Some x /\ getitem coll i = ret x.
Proof.
  unfold valid, getitem, len. intros H.
  apply andb_true_iff in H as [H0 H1].
  apply Z.leb_le in H0. apply Z.ltb_lt in H1.
  destruct (i <? 0) eqn:Hn; [apply Z.ltb_lt in Hn; lia|].
  rewrite Hn.
  destruct (nth_error coll (Z.to_nat i)) as [x|] eqn:Hx.
  - exists x. split; reflexivity.
  - apply nth_error_None in Hx. lia.
Qed.

(** Indexing from the end. *)
Lemma getitem_negative {A} (coll : list A) (i : Z) :
  i < 0 ->
  getitem coll i =
    if 0 <=? len coll + i then
      match from_end coll i with
      | Some x => ret x
      | None => raise IndexError
      end
    else raise IndexError.
Proof.
  intros Hi. unfold getitem, from_end.
  destruct (i <? 0) eqn:Hn; [|apply Z.ltb_ge in Hn; lia].
  destruct (len coll + i <? 0) eqn:Hj.
  - apply Z.ltb_lt in Hj.
    destruct (0 <=? len coll + i) eqn:Hk; [apply Z.leb_le in Hk; lia|reflexivity].
  - apply Z.ltb_ge in Hj.
    destruct (0 <=? len coll + i) eqn:Hk; [reflexivity|apply Z.leb_gt in Hk; lia].
Qed.

Lemma from_end_some {A} (coll : list A) (i : Z) :
  i < 0 -> 0 <= len coll + i -> exists x, from_end coll i = Some x.
Proof.
  intros Hi Hj. unfold from_end.
  destruct (nth_error coll (Z.to_nat (len coll + i))) as [x|] eqn:Hx.
  - now exists x.
  - apply nth_error_None in Hx. unfold len in *. lia.
Qed.

(* ------------------------------------------------------------------ *)
(** ** The formatters only print                                        *)
(* ------------------------------------------------------------------ *)

Section Formatters.

Variable E : Env.

Lemma print_value_info_prints t : prints (print_value_info E t).
Proof. reflexivity. Qed.

Lemma print_initializer_prints t d : prints (print_initializer E t d).
Proof. destruct d; reflexivity. Qed.

Lemma print_node_prints n d : prints (print_node E n d).
Proof.
  unfold print_node, prints. cbv zeta.
  destruct (d && (len (n_attribute n) >? 0)); reflexivity.
Qed.

Lemma print_initializer_plain t :
  exists line, print_initializer E t false = ([line], Ok tt).
Proof. eexists. reflexivity. Qed.

End Formatters.

Create HintDb fmt.
#[local] Hint Resolve print_value_info_prints print_initializer_prints
  print_node_prints : fmt.

(* ------------------------------------------------------------------ *)
(** ** The report driver and the fixed blocks                           *)
(* ------------------------------------------------------------------ *)

(** The aggregate summary itself is eight lines for every graph. *)
Lemma print_basic_eight_lines (g : GraphProto) :
  List.length (rendered (print_basic g)) = 8%nat /\ ending (print_basic g) = Ok tt.
Proof. split; reflexivity. Qed.

(** C1 (defect of the code).  With none of the meta, node and tensor flags
    set, [run] reaches the fallback, but calls [print_basic] with two
    arguments where it is declared with one: the call raises [TypeError]
    and no line of the summary is written, whatever the model and
    whatever indices were given. The summary itself, had it been called
    with the graph alone, is eight lines. *)
Theorem run_fallback_raises_type_error (E : Env) (path : string)
    (m : ModelProto) (idx : list Z) :
  run E (fun _ => Ok m) (parsed path false false false [] [] false)
    = ([], Raise (TypeError
         "print_basic() takes 1 positional argument but 2 were given"))
  /\ run E (fun _ => Ok m) (parsed path false false false idx [] false)
    = ([], Raise (TypeError
         "print_basic() takes 1 positional argument but 2 were given"))
  /\ List.length (rendered (call_print_basic [ObjGraph (graph m)])) = 8%nat.
Proof.
  split; [reflexivity|]. split; [|reflexivity].
  destruct idx as [|i idx]; reflexivity.
Qed.

(** What the checks at the head of [run] do on a parsed command line. *)
Lemma run_checks_parsed (path : string) (m n t d : bool) (idx : list Z)
    (nms : list string) :
  run_checks (parsed path m n t idx nms d)
    = if negb (len idx =? 0) && negb (len nms =? 0)
      then ([], Raise ConflictingSelectors)
      else if (len idx =? 0) && (len nms =? 0) && d
      then ([], Raise DetailWithoutSelector)
      else ([], Ok tt).
Proof.
  unfold run_checks, parsed; cbn -[len Z.eqb].
  destruct (len idx =? 0), (len nms =? 0), d; reflexivity.
Qed.

(** C2 (defect of the code).  The second check of [run] never fires: its
    guard tests the flags with [is None], which is false of the booleans
    the parser stores, and tests the index list twice instead of the index
    list and the name list. So on a parsed command line the checks end
    either with ConflictingSelectors, with DetailWithoutSelector or
    normally, and a selector without a target passes them; even with both
    flags absent a name list alone passes. *)
Theorem selector_without_target_never_raised (path : string)
    (m d : bool) (idx : list Z) (nms : list string) :
  run_checks (parsed path m false false idx nms d)
    = (if negb (len idx =? 0) && negb (len nms =? 0)
       then ([], Raise ConflictingSelectors)
       else if (len idx =? 0) && (len nms =? 0) && d
       then ([], Raise DetailWithoutSelector)
       else ([], Ok tt))
  /\ run_checks (parsed path false false false [0] [] false) = ([], Ok tt)
  /\ run_checks (parsed path false false false [] ["conv1"] false) = ([], Ok tt)
  /\ run_checks (mkArgs path PyNone PyNone PyNone [] ["conv1"] PyNone)
       = ([], Ok tt)
  /\ run_checks (mkArgs path PyNone PyNone PyNone [0] [] PyNone)
       = ([], Raise SelectorWithoutTarget).
Proof.
  split; [apply run_checks_parsed|].
  repeat split; reflexivity.
Qed.

(** The meta block, for every model. *)
Lemma print_meta_lines (E : Env) (m : ModelProto) :
  print_meta E m
    = ([ "Meta information:"; rule;
         "  IR Version: " +++ str_int (ir_version m);
         "  Opset Import: " +++ str_opset_import E (opset_import m);
         "  Producer name: " +++ producer_name m;
         "  Producer version: " +++ producer_version m;
         "  Domain: " +++ domain m;
         "  Doc string: " +++ doc_string m ]
       ++ map (fun i => "  meta.{} = {} " +++ key i +++ " " +++ value_ i)
              (metadata_props m),
       Ok tt).
Proof.
  unfold print_meta.
  rewrite (for_each_prints _ (metadata_props m)) by reflexivity.
  cbn -[rule str_int String.append map flat_map].
  f_equal.
Qed.

(** C7 (defect of the code).  The line of a metadata pair is printed by
    [print] with the format string and the two fields as separate
    arguments, without [format]: for the pair author / alice the line is
    the unfilled format string followed by the key and the value, not
    [meta.author = alice]. *)
Theorem print_meta_pair_not_formatted (E : Env) :
  let m := mkModel 7 [] "" "" "" "" [mkEntry "author" "alice"] empty_graph in
  skipn 8 (rendered (print_meta E m)) = ["  meta.{} = {} author alice"]
  /\ ending (print_meta E m) = Ok tt
  /\ existsb (String.eqb "  meta.author = alice") (rendered (print_meta E m))
       = false.
Proof.
  cbv zeta. rewrite print_meta_lines. unfold rendered, ending.
  cbn [fst snd metadata_props map key value_ app skipn].
  repeat split.
Qed.

(* ------------------------------------------------------------------ *)
(** ** The collection locator: no selection                             *)
(* ------------------------------------------------------------------ *)

(** The header comes first, then whatever the selected mode does. *)
Lemma with_header {A} (h1 h2 : string) (rest : M A) :
  (print [h1] ;; print [h2] ;; rest) = ([h1; h2] ++ fst rest, snd rest).
Proof. destruct rest as [o r]. reflexivity. Qed.

(** C9.  With no selector, [print_tensor] writes, after its header, every
    value-info in collection order and then every initializer in
    collection order, and each initializer in its non-detailed form (a
    single line, no data line) whatever the detail flag. *)
Theorem print_tensor_all (E : Env) (g : GraphProto) (detail : bool) :
  print_tensor E g [] [] detail
    = (tensor_header
       ++ flat_map (fun t => rendered (print_value_info E t)) (g_value_info g)
       ++ flat_map (fun t => rendered (print_initializer E t false))
            (g_initializer g),
       Ok tt)
  /\ (forall t, exists line, print_initializer E t false = ([line], Ok tt)).
Proof.
  split; [|apply print_initializer_plain].
  unfold print_tensor. rewrite with_header.
  change (len (@nil Z) >? 0) with false.
  change (len (@nil string) >? 0) with false. cbv iota.
  rewrite (for_each_prints (print_value_info E)) by auto with fmt.
  rewrite bind_ok.
  rewrite (for_each_prints (fun t => print_initializer E t false))
    by auto with fmt.
  reflexivity.
Qed.

(* ------------------------------------------------------------------ *)
(** ** The collection locator: by index                                 *)
(* ------------------------------------------------------------------ *)

(** One guarded access of the index loop, at an index that is not
    negative: the guard is the validity of the index, and the access then
    succeeds. *)
Lemma probe_nonneg {A} (emit : A -> M unit) (coll : list A) (i : Z)
    (b b' : bool) :
  0 <= i -> (forall x, prints (emit x)) ->
  (if i <? len coll then t <- getitem coll i ;; emit t ;; ret b' else ret b)
    = (match_at emit coll i, Ok (if valid i coll then b' else b)).
Proof.
  intros Hi He. unfold match_at.
  assert (Hv : valid i coll = (i <? len coll)).
  { unfold valid. destruct (0 <=? i) eqn:H0; [reflexivity|].
    apply Z.leb_gt in H0. lia. }
  rewrite Hv. destruct (i <? len coll) eqn:Hlt; [|reflexivity].
  destruct (getitem_valid coll i Hv) as (x & Hx & Hg).
  rewrite Hg, Hx, bind_ret_l, (bind_prints _ _ (He x)).
  cbn [ret fst snd]. now rewrite app_nil_r.
Qed.

(** The same access at a negative index: the guard always passes, and the
    access counts from the end or raises [IndexError]. *)
Lemma probe_negative {A} (emit : A -> M unit) (coll : list A) (i : Z)
    (b b' : bool) :
  i < 0 -> (forall x, prints (emit x)) ->
  (if i <? len coll then t <- getitem coll i ;; emit t ;; ret b' else ret b)
    = match (if 0 <=? len coll + i then from_end coll i else None) with
      | Some x => (rendered (emit x), Ok b')
      | None => ([], Raise IndexError)
      end.
Proof.
  intros Hi He.
  assert (Hlt : (i <? len coll) = true).
  { apply Z.ltb_lt. pose proof (len_nonneg coll). lia. }
  rewrite Hlt, (getitem_negative coll i Hi).
  destruct (0 <=? len coll + i); [|reflexivity].
  destruct (from_end coll i) as [x|]; [|reflexivity].
  rewrite bind_ret_l, (bind_prints _ _ (He x)).
  cbn [ret fst snd]. now rewrite app_nil_r.
Qed.

Section ByIndex.

Variable E : Env.
Variable g : GraphProto.
Variable detail : bool.

Lemma tensor_index_body_nonneg (i : Z) :
  0 <= i ->
  tensor_index_body E g detail i
    = if valid_somewhere g i
      then (tensor_index_matches E g detail i, Ok tt)
      else ([], Raise tensor_index_error).
Proof.
  intros Hi. unfold tensor_index_body. cbv zeta.
  rewrite (probe_nonneg (print_value_info E) (g_value_info g) i false true Hi)
    by auto with fmt.
  rewrite bind_ok. cbn [fst snd].
  rewrite (probe_nonneg (fun t => print_initializer E t detail)
             (g_initializer g) i _ true Hi) by auto with fmt.
  rewrite bind_ok. cbn [fst snd].
  rewrite (probe_nonneg (print_value_info E) (g_input g) i _ true Hi)
    by auto with fmt.
  rewrite bind_ok. cbn [fst snd].
  rewrite (probe_nonneg (print_value_info E) (g_output g) i _ true Hi)
    by auto with fmt.
  rewrite bind_ok. cbn [fst snd].
  unfold valid_somewhere, tensor_index_matches, match_at.
  destruct (valid i (g_value_info g)), (valid i (g_initializer g)),
    (valid i (g_input g)), (valid i (g_output g));
    cbn [orb negb when ret raise fst snd app];
    rewrite ?app_nil_r; reflexivity.
Qed.

Lemma node_index_body_nonneg (i : Z) :
  0 <= i ->
  node_index_body E g detail i
    = if valid i (g_node g)
      then (match_at (fun n => print_node E n detail) (g_node g) i, Ok tt)
      else ([], Raise (node_index_error g i)).
Proof.
  intros Hi. unfold node_index_body, match_at.
  assert (Hv : valid i (g_node g) = negb (i >=? len (g_node g))).
  { unfold valid. rewrite Z.geb_leb, <- Z.ltb_antisym.
    destruct (0 <=? i) eqn:H0; [reflexivity|]. apply Z.leb_gt in H0. lia. }
  destruct (valid i (g_node g)) eqn:Hval.
  - destruct (getitem_valid _ _ Hval) as (x & Hx & Hg).
    symmetry in Hv. apply negb_true_iff in Hv. rewrite Hv, Hg, Hx.
    cbn [when]. rewrite !bind_ret_l.
    apply prints_eq. auto with fmt.
  - symmetry in Hv. apply negb_false_iff in Hv. rewrite Hv. reflexivity.
Qed.

(** A loop over indices that all have a match writes all the matches. *)
Lemma for_each_all_valid (body : Z -> M unit) (found : Z -> list string)
    (ok : Z -> bool) (idxs : list Z) :
  (forall i, 0 <= i -> ok i = true -> body i = (found i, Ok tt)) ->
  Forall (fun i => 0 <= i /\ ok i = true) idxs ->
  for_each idxs body = (flat_map found idxs, Ok tt).
Proof.
  intros Hb Hall. induction Hall as [|i l [Hi Hok] _ IH]; [reflexivity|].
  cbn [for_each flat_map]. rewrite (Hb i Hi Hok), bind_ok, IH. reflexivity.
Qed.

(** A loop stops at the first index without a match. *)
Lemma for_each_first_invalid (body : Z -> M unit) (found : Z -> list string)
    (ok : Z -> bool) (e : exn) (pre post : list Z) (i : Z) :
  (forall i, 0 <= i -> ok i = true -> body i = (found i, Ok tt)) ->
  Forall (fun i => 0 <= i /\ ok i = true) pre ->
  body i = ([], Raise e) ->
  for_each (pre ++ i :: post) body = (flat_map found pre, Raise e).
Proof.
  intros Hb Hall Hi.
  rewrite for_each_app, (for_each_all_valid body found ok pre Hb Hall).
  rewrite bind_ok. cbn [for_each]. rewrite Hi. cbn [bind fst snd].
  now rewrite app_nil_r.
Qed.

End ByIndex.

Lemma counted_from_end_some {A} (coll : list A) (i : Z) :
  i < 0 -> 0 <= len coll + i -> exists x, counted_from_end coll i = Some x.
Proof.
  intros Hi Hj. unfold counted_from_end.
  destruct (0 <=? len coll + i) eqn:Hk; [|apply Z.leb_gt in Hk; lia].
  now apply from_end_some.
Qed.

Lemma counted_from_end_none {A} (coll : list A) (i : Z) :
  len coll + i < 0 -> counted_from_end coll i = None.
Proof.
  intros Hj. unfold counted_from_end.
  destruct (0 <=? len coll + i) eqn:Hk; [apply Z.leb_le in Hk; lia|reflexivity].
Qed.

Section NegativeIndex.

Variable E : Env.
Variable g : GraphProto.
Variable detail : bool.

(** What the loop body does at a negative index: the four accesses in
    turn, each counting from the end, the first that falls before the
    start of its collection ending the command with [IndexError]. *)
Lemma tensor_index_body_negative (i : Z) :
  i < 0 ->
  tensor_index_body E g detail i
    = match counted_from_end (g_value_info g) i with
      | None => ([], Raise IndexError)
      | Some a =>
        match counted_from_end (g_initializer g) i with
        | None => (rendered (print_value_info E a), Raise IndexError)
        | Some b =>
          match counted_from_end (g_input g) i with
          | None => (rendered (print_value_info E a)
                     ++ rendered (print_initializer E b detail),
                     Raise IndexError)
          | Some c =>
            match counted_from_end (g_output g) i with
            | None => (rendered (print_value_info E a)
                       ++ rendered (print_initializer E b detail)
                       ++ rendered (print_value_info E c),
                       Raise IndexError)
            | Some d => (rendered (print_value_info E a)
                         ++ rendered (print_initializer E b detail)
                         ++ rendered (print_value_info E c)
                         ++ rendered (print_value_info E d),
                         Ok tt)
            end
          end
        end
      end.
Proof.
  intros Hi. unfold tensor_index_body. cbv zeta.
  rewrite (probe_negative (print_value_info E) (g_value_info g) i false true Hi)
    by auto with fmt.
  fold (counted_from_end (g_value_info g) i).
  destruct (counted_from_end (g_value_info g) i) as [a|]; [|reflexivity].
  rewrite bind_ok. cbn [fst snd].
  rewrite (probe_negative (fun t => print_initializer E t detail)
             (g_initializer g) i true true Hi) by auto with fmt.
  fold (counted_from_end (g_initializer g) i).
  destruct (counted_from_end (g_initializer g) i) as [b|];
    [|cbn [fst snd]; now rewrite app_nil_r].
  rewrite bind_ok. cbn [fst snd].
  rewrite (probe_negative (print_value_info E) (g_input g) i true true Hi)
    by auto with fmt.
  fold (counted_from_end (g_input g) i).
  destruct (counted_from_end (g_input g) i) as [c|];
    [|cbn [fst snd]; now rewrite app_nil_r].
  rewrite bind_ok. cbn [fst snd].
  rewrite (probe_negative (print_value_info E) (g_output g) i true true Hi)
    by auto with fmt.
  fold (counted_from_end (g_output g) i).
  destruct (counted_from_end (g_output g) i) as [d|];
    [|cbn [fst snd]; now rewrite app_nil_r].
  rewrite bind_ok. cbn [fst snd negb when ret]. now rewrite app_nil_r.
Qed.

Lemma print_tensor_single (i : Z) (nms : list string) :
  print_tensor E g [i] nms detail
    = (tensor_header ++ rendered (tensor_index_body E g detail i),
       ending (tensor_index_body E g detail i)).
Proof.
  unfold print_tensor. rewrite with_header.
  rewrite len_cons_pos. cbn [for_each].
  destruct (tensor_index_body E g detail i) as [o [[]|e]];
    cbn [bind ret fst snd rendered ending]; rewrite ?app_nil_r; reflexivity.
Qed.

Lemma print_tensor_indices (idxs : list Z) (nms : list string) :
  idxs <> [] ->
  print_tensor E g idxs nms detail
    = (tensor_header ++ fst (for_each idxs (tensor_index_body E g detail)),
       snd (for_each idxs (tensor_index_body E g detail))).
Proof.
  intros Hne. unfold print_tensor. rewrite with_header.
  apply len_pos_iff in Hne. now rewrite Hne.
Qed.

Lemma print_nodes_indices (idxs : list Z) (nms : list string) :
  idxs <> [] ->
  print_nodes E g idxs nms detail
    = (node_header ++ fst (for_each idxs (node_index_body E g detail)),
       snd (for_each idxs (node_index_body E g detail))).
Proof.
  intros Hne. unfold print_nodes. rewrite with_header.
  apply len_pos_iff in Hne. now rewrite Hne.
Qed.

End NegativeIndex.

(** C3 (amended).  For every graph and every requested index that is not
    negative: under the tensor target the lookup writes a match from each
    of value-infos, initializers, inputs and outputs, in that order, where
    the index is valid, skips the others, and fails with the out-of-range
    [ValueError] exactly when the index is valid in none; under the node
    target it is one bound on the node collection. In a list of indices
    the matches of the indices before the first failing one are written. *)
Theorem index_lookup_nonneg (E : Env) (g : GraphProto) (detail : bool)
    (nms : list string) (i : Z) :
  0 <= i ->
  print_tensor E g [i] nms detail
    = (if valid_somewhere g i
       then (tensor_header ++ tensor_index_matches E g detail i, Ok tt)
       else (tensor_header, Raise tensor_index_error))
  /\ print_nodes E g [i] nms detail
    = (if valid i (g_node g)
       then (node_header
             ++ match_at (fun n => print_node E n detail) (g_node g) i, Ok tt)
       else (node_header, Raise (node_index_error g i)))
  /\ (forall rest,
        Forall (fun j => 0 <= j /\ valid_somewhere g j = true) (i :: rest) ->
        print_tensor E g (i :: rest) nms detail
          = (tensor_header
             ++ flat_map (tensor_index_matches E g detail) (i :: rest), Ok tt))
  /\ (forall pre post,
        Forall (fun j => 0 <= j /\ valid_somewhere g j = true) pre ->
        valid_somewhere g i = false ->
        print_tensor E g (pre ++ i :: post) nms detail
          = (tensor_header ++ flat_map (tensor_index_matches E g detail) pre,
             Raise tensor_index_error)).
Proof.
  intros Hi. repeat split.
  - rewrite print_tensor_single, (tensor_index_body_nonneg E g detail i Hi).
    now destruct (valid_somewhere g i); cbn; rewrite ?app_nil_r.
  - rewrite print_nodes_indices by discriminate. cbn [for_each].
    rewrite (node_index_body_nonneg E g detail i Hi).
    now destruct (valid i (g_node g)); cbn; rewrite ?app_nil_r.
  - intros rest Hall. rewrite print_tensor_indices by discriminate.
    rewrite (for_each_all_valid _ (tensor_index_matches E g detail)
               (valid_somewhere g)); [reflexivity| |exact Hall].
    intros j Hj Hok. now rewrite tensor_index_body_nonneg, Hok.
  - intros pre post Hall Hbad.
    rewrite print_tensor_indices by (now destruct pre).
    rewrite (for_each_first_invalid _ (tensor_index_matches E g detail)
               (valid_somewhere g) tensor_index_error); [reflexivity| |exact Hall|].
    + intros j Hj Hok. now rewrite tensor_index_body_nonneg, Hok.
    + now rewrite tensor_index_body_nonneg, Hbad.
Qed.

Lemma index_lookup_nonneg_witness :
  0 <= 0
  /\ print_tensor plain_env two_initializers [0] [] false
       = (tensor_header ++ rendered (print_initializer plain_env init_w false),
          Ok tt).
Proof.
  split; [apply Z.le_refl|].
  exact (proj1 (index_lookup_nonneg plain_env two_initializers false [] 0
                  (Z.le_refl 0))).
Defined.

(** C3 as stated, for every index, fails at a negative one: [-1] is a
    position of no collection, yet on a graph with one element in each
    collection the lookup writes four matches and does not fail, and on
    the empty graph it ends with [IndexError], not with the out-of-range
    [ValueError]. *)
Lemma index_lookup_negative_counterexample :
  valid_somewhere one_of_each (-1) = false
  /\ print_tensor plain_env one_of_each [-1] [] false
       = (tensor_header
          ++ rendered (print_value_info plain_env vi_x)
          ++ rendered (print_initializer plain_env init_w false)
          ++ rendered (print_value_info plain_env vi_x)
          ++ rendered (print_value_info plain_env vi_y),
          Ok tt)
  /\ valid_somewhere empty_graph (-1) = false
  /\ print_tensor plain_env empty_graph [-1] [] false
       = (tensor_header, Raise IndexError).
Proof. repeat split. Qed.

(** C10 (amended).  For every negative index under the tensor target the
    guard of each access accepts the index, and the four collections are
    accessed in priority order (value-infos, initializers, inputs,
    outputs): an access that is reached writes the element counted from
    the end of its collection when [len + i >= 0], and the first
    collection with [len + i < 0] raises [IndexError], which ends the
    lookup before the collections after it are probed. So the lookup ends
    normally exactly when all four collections are long enough, and
    otherwise with [IndexError]; it never ends with the out-of-range
    [ValueError]. *)
Theorem negative_index_lookup (E : Env) (g : GraphProto) (detail : bool)
    (nms : list string) (i : Z) :
  i < 0 ->
  print_tensor E g [i] nms detail
    = match counted_from_end (g_value_info g) i with
      | None => (tensor_header, Raise IndexError)
      | Some a =>
        match counted_from_end (g_initializer g) i with
        | None => (tensor_header ++ rendered (print_value_info E a),
                   Raise IndexError)
        | Some b =>
          match counted_from_end (g_input g) i with
          | None => (tensor_header
                     ++ rendered (print_value_info E a)
                     ++ rendered (print_initializer E b detail),
                     Raise IndexError)
          | Some c =>
            match counted_from_end (g_output g) i with
            | None => (tensor_header
                       ++ rendered (print_value_info E a)
                       ++ rendered (print_initializer E b detail)
                       ++ rendered (print_value_info E c),
                       Raise IndexError)
            | Some d => (tensor_header
                         ++ rendered (print_value_info E a)
                         ++ rendered (print_initializer E b detail)
                         ++ rendered (print_value_info E c)
                         ++ rendered (print_value_info E d),
                         Ok tt)
            end
          end
        end
      end
  /\ (forall A (coll : list A),
        (len coll + i < 0 -> counted_from_end coll i = None)
        /\ (0 <= len coll + i ->
            exists x, nth_error coll (Z.to_nat (len coll + i)) = Some x
                      /\ counted_from_end coll i = Some x))
  /\ (ending (print_tensor E g [i] nms detail) = Ok tt
      <-> 0 <= len (g_value_info g) + i /\ 0 <= len (g_initializer g) + i
          /\ 0 <= len (g_input g) + i /\ 0 <= len (g_output g) + i)
  /\ (ending (print_tensor E g [i] nms detail) = Ok tt
      \/ ending (print_tensor E g [i] nms detail) = Raise IndexError).
Proof.
  intros Hi.
  assert (Hchar : forall A (coll : list A),
            (len coll + i < 0 -> counted_from_end coll i = None)
            /\ (0 <= len coll + i ->
                exists x, nth_error coll (Z.to_nat (len coll + i)) = Some x
                          /\ counted_from_end coll i = Some x)).
  { intros A coll. split; [apply counted_from_end_none|].
    intros Hj. destruct (from_end_some coll i Hi Hj) as [x Hx].
    exists x. split; [exact Hx|]. unfold counted_from_end.
    destruct (0 <=? len coll + i) eqn:Hk; [exact Hx|].
    apply Z.leb_gt in Hk. lia. }
  assert (Hdec : forall A (coll : list A),
            (counted_from_end coll i = None /\ len coll + i < 0)
            \/ (exists x, counted_from_end coll i = Some x
                          /\ 0 <= len coll + i)).
  { intros A coll. destruct (Z.lt_ge_cases (len coll + i) 0) as [Hlt|Hge].
    - left. split; [now apply Hchar|exact Hlt].
    - right. destruct (proj2 (Hchar A coll) Hge) as (x & _ & Hx).
      exists x. now split. }
  rewrite print_tensor_single, (tensor_index_body_negative E g detail i Hi).
  unfold ending.
  destruct (Hdec _ (g_value_info g)) as [[-> Ha]|(a & -> & Ha)];
    [|destruct (Hdec _ (g_initializer g)) as [[-> Hb]|(b & -> & Hb)];
      [|destruct (Hdec _ (g_input g)) as [[-> Hc]|(c & -> & Hc)];
        [|destruct (Hdec _ (g_output g)) as [[-> Hd]|(d & -> & Hd)]]]];
    cbn [rendered fst snd]; rewrite ?app_nil_r;
    (split; [reflexivity|]); (split; [exact Hchar|]);
    (split; [|auto]);
    (split; [intros H; try discriminate; repeat split; assumption
            |intros (H1 & H2 & H3 & H4); try reflexivity; lia]).
Qed.

Lemma negative_index_lookup_witness :
  -1 < 0
  /\ print_tensor plain_env one_of_each [-1] [] true
       = (tensor_header
          ++ rendered (print_value_info plain_env vi_x)
          ++ rendered (print_initializer plain_env init_w true)
          ++ rendered (print_value_info plain_env vi_x)
          ++ rendered (print_value_info plain_env vi_y),
          Ok tt).
Proof.
  assert (H : -1 < 0) by reflexivity.
  split; [exact H|].
  exact (proj1 (negative_index_lookup plain_env one_of_each true [] (-1) H)).
Defined.

(** C10 as stated fails when an earlier collection is too short: with two
    initializers and nothing else, [-1] has [len + i >= 0] in the
    initializers, yet the lookup does not succeed and writes no
    initializer, because the access to the empty value-info collection,
    which comes first, raises [IndexError]. *)
Lemma negative_index_earlier_collection_counterexample :
  (0 <=? len (g_initializer two_initializers) + -1) = true
  /\ counted_from_end (g_initializer two_initializers) (-1) = Some init_b
  /\ print_tensor plain_env two_initializers [-1] [] false
       = (tensor_header, Raise IndexError).
Proof. repeat split. Qed.

Lemma prefix_append (s t : string) : String.prefix s (s +++ t) = true.
Proof.
  induction s as [|c s IH]; [now destruct t|].
  cbn. destruct (ascii_dec c c); [exact IH|congruence].
Qed.

Lemma contains_append (p s t : string) : contains s (p +++ s +++ t) = true.
Proof.
  induction p as [|c p IH]; cbn [String.append].
  - destruct (s +++ t) eqn:Hst; cbn [contains];
      rewrite <- Hst, prefix_append; reflexivity.
  - cbn [contains]. rewrite IH. apply orb_true_r.
Qed.

(** The decimal text of an integer starts with a digit or a minus sign,
    and the message of the tensor path has neither. *)
Lemma tensor_index_error_lacks_index (i : Z) :
  contains (str_int i) (message tensor_index_error) = false.
Proof.
  unfold str_int, NilZero.string_of_int, NilZero.string_of_uint.
  destruct (Z.to_int i) as [d|d]; destruct d; reflexivity.
Qed.

(** C6 (defect of the code).  The tensor path raises its out-of-range
    error with the format string as it stands: [format] is never applied,
    so the message holds the braces and, for every index, not the index.
    The node path applies [format], and its message holds the index. On
    the empty graph with index 0 and the detail flag the command ends with
    that unfilled message. *)
Theorem tensor_index_error_omits_index (E : Env) (g : GraphProto)
    (detail : bool) (nms : list string) (i : Z) :
  print_tensor E empty_graph [0] nms detail
    = (tensor_header,
       Raise (ValueError
                "indices {} out of range, check the total size of tensors"))
  /\ contains (str_int i) (message tensor_index_error) = false
  /\ contains "{}" (message tensor_index_error) = true
  /\ contains (str_int i) (message (node_index_error g i)) = true.
Proof.
  repeat split.
  - apply tensor_index_error_lacks_index.
  - unfold node_index_error, message. apply contains_append.
Qed.

(* ------------------------------------------------------------------ *)
(** ** The collection locator: by name                                  *)
(* ------------------------------------------------------------------ *)

(** The inner loop stops at the first bearer of the name in its own
    collection, and raises the flag when there is one. *)
Lemma scan_name_spec {A} (name_of : A -> string) (emit : A -> M unit)
    (name : string) (coll : list A) (b : bool) :
  (forall x, prints (emit x)) ->
  scan_name name_of emit name coll b
    = (match_named name_of emit name coll,
       Ok (has_name name_of name coll || b)).
Proof.
  intros He. unfold match_named, first_named, has_name.
  induction coll as [|x coll IH]; [reflexivity|].
  cbn [scan_name find existsb].
  destruct (name_of x =? name)%string; [|exact IH].
  rewrite (bind_prints _ _ (He x)). cbn [ret fst snd orb].
  now rewrite app_nil_r.
Qed.

Section ByName.

Variable E : Env.
Variable g : GraphProto.
Variable detail : bool.

Lemma tensor_name_body_spec (name : string) (b : bool) :
  tensor_name_body E g detail name b
    = (tensor_name_matches E g detail name, Ok (tensor_has_name g name || b)).
Proof.
  unfold tensor_name_body, tensor_name_matches, tensor_has_name.
  rewrite (scan_name_spec vi_name (print_value_info E)) by auto with fmt.
  rewrite bind_ok.
  rewrite (scan_name_spec t_name (fun i => print_initializer E i detail))
    by auto with fmt.
  cbn [fst snd]. rewrite bind_ok.
  rewrite (scan_name_spec vi_name (print_value_info E)) by auto with fmt.
  cbn [fst snd]. rewrite bind_ok.
  rewrite (scan_name_spec vi_name (print_value_info E)) by auto with fmt.
  cbn [fst snd]. f_equal. f_equal.
  destruct (has_name vi_name name (g_value_info g)),
    (has_name t_name name (g_initializer g)),
    (has_name vi_name name (g_input g)),
    (has_name vi_name name (g_output g)), b; reflexivity.
Qed.

Lemma node_name_body_spec (name : string) (b : bool) :
  node_name_body E g detail name b
    = (match_named n_name (fun n => print_node E n detail) name (g_node g),
       Ok (has_name n_name name (g_node g) || b)).
Proof. unfold node_name_body. apply scan_name_spec. auto with fmt. Qed.

(** The loop over the names writes the matches of every name and ends
    with the flag raised when some name had a match. *)
Lemma for_fold_names (body : string -> bool -> M bool)
    (found : string -> list string) (hit : string -> bool)
    (nms : list string) (b : bool) :
  (forall name b, body name b = (found name, Ok (hit name || b))) ->
  for_fold nms b body = (flat_map found nms, Ok (existsb hit nms || b)).
Proof.
  intros Hb. revert b. induction nms as [|n nms IH]; intros b; [reflexivity|].
  cbn [for_fold flat_map existsb]. rewrite Hb, bind_ok, IH. cbn [fst snd].
  f_equal. f_equal. now destruct (hit n), (existsb hit nms), b.
Qed.

Lemma print_tensor_names (nms : list string) :
  nms <> [] ->
  print_tensor E g [] nms detail
    = (tensor_header ++ flat_map (tensor_name_matches E g detail) nms,
       if existsb (tensor_has_name g) nms then Ok tt
       else Raise (ValueError ("No tensor found with name " +++ last nms ""))).
Proof.
  intros Hne. unfold print_tensor. rewrite with_header.
  change (len (@nil Z) >? 0) with false. cbv iota zeta.
  apply len_pos_iff in Hne. rewrite Hne.
  rewrite (for_fold_names _ _ _ nms false tensor_name_body_spec), bind_ok.
  rewrite orb_false_r.
  destruct (existsb (tensor_has_name g) nms);
    cbn [negb when ret raise fst snd]; now rewrite app_nil_r.
Qed.

Lemma print_nodes_names (nms : list string) :
  nms <> [] ->
  print_nodes E g [] nms detail
    = (node_header
       ++ flat_map (fun name =>
            match_named n_name (fun n => print_node E n detail) name (g_node g))
            nms,
       if existsb (fun name => has_name n_name name (g_node g)) nms then Ok tt
       else Raise (ValueError ("No node found with name " +++ last nms ""))).
Proof.
  intros Hne. unfold print_nodes. rewrite with_header.
  change (len (@nil Z) >? 0) with false. cbv iota zeta.
  apply len_pos_iff in Hne. rewrite Hne.
  rewrite (for_fold_names _ _ _ nms false node_name_body_spec), bind_ok.
  rewrite orb_false_r.
  destruct (existsb _ nms);
    cbn [negb when ret raise fst snd]; now rewrite app_nil_r.
Qed.

End ByName.

(** C4 (defect of the code).  Both name loops build their error from the
    single name in the loop variable, but set the found flag before the
    loop over the names and test it after it, where the index loops of
    the same functions test once per item. So a requested name that
    matches nothing is not reported as soon as any other requested name
    matches: the command ends normally exactly when some name of the list
    has a match, and when none has, only the last name is named. With a
    single node a, asking for a and zzz ends normally in either order. *)
Theorem name_lookup_misses_absent_name (E : Env) (g : GraphProto)
    (detail : bool) (n : string) (nms : list string) :
  ending (print_tensor E g [] (n :: nms) detail)
    = (if existsb (tensor_has_name g) (n :: nms) then Ok tt
       else Raise (ValueError
              ("No tensor found with name " +++ last (n :: nms) "")))
  /\ ending (print_nodes E g [] (n :: nms) detail)
    = (if existsb (fun name => has_name n_name name (g_node g)) (n :: nms)
       then Ok tt
       else Raise (ValueError
              ("No node found with name " +++ last (n :: nms) "")))
  /\ has_name n_name "zzz" (g_node one_node) = false
  /\ print_nodes E one_node [] ["a"; "zzz"] detail
       = (node_header ++ rendered (print_node E node_a detail), Ok tt)
  /\ print_nodes E one_node [] ["zzz"; "a"] detail
       = (node_header ++ rendered (print_node E node_a detail), Ok tt)
  /\ tensor_has_name one_of_each "zzz" = false
  /\ ending (print_tensor E one_of_each [] ["zzz"; "w"] detail) = Ok tt.
Proof.
  unfold ending.
  rewrite !print_tensor_names, !print_nodes_names by discriminate.
  cbn [snd]. repeat split; cbn; now rewrite ?app_nil_r.
Qed.

(** C5 (amended).  For every non-empty list of requested names under the
    tensor target, the lines written after the header are, name by name,
    the matches of that name: from each of value-infos, initializers,
    inputs and outputs, in that order, the first element bearing the name
    when there is one. A name borne in several collections has one match
    from each of them. *)
Theorem name_lookup_first_in_each_collection (E : Env) (g : GraphProto)
    (detail : bool) (nms : list string) :
  nms <> [] ->
  rendered (print_tensor E g [] nms detail)
    = tensor_header
      ++ flat_map (fun name =>
           match_named vi_name (print_value_info E) name (g_value_info g)
           ++ match_named t_name (fun t => print_initializer E t detail) name
                (g_initializer g)
           ++ match_named vi_name (print_value_info E) name (g_input g)
           ++ match_named vi_name (print_value_info E) name (g_output g))
         nms.
Proof.
  intros Hne. unfold rendered. now rewrite print_tensor_names.
Qed.

Lemma name_lookup_first_in_each_collection_witness :
  ["w"] <> []
  /\ rendered (print_tensor plain_env one_of_each [] ["w"] false)
       = tensor_header ++ rendered (print_initializer plain_env init_w false).
Proof.
  assert (H : ["w"] <> []) by discriminate.
  split; [exact H|].
  exact (name_lookup_first_in_each_collection plain_env one_of_each false
           ["w"] H).
Defined.

(** C5 as stated fails for a name borne in two collections: x is a
    value-info and an input of the graph, and the lookup writes both, the
    value-info first. *)
Lemma name_lookup_two_matches_counterexample :
  has_name vi_name "x" (g_value_info one_of_each) = true
  /\ has_name vi_name "x" (g_input one_of_each) = true
  /\ print_tensor plain_env one_of_each [] ["x"] false
       = (tensor_header
          ++ rendered (print_value_info plain_env vi_x)
          ++ rendered (print_value_info plain_env vi_x),
          Ok tt)
  /\ List.length (rendered (print_tensor plain_env one_of_each [] ["x"] false))
       = 4%nat.
Proof. repeat split. Qed.

(* ------------------------------------------------------------------ *)
(** ** The node-type histogram                                          *)
(* ------------------------------------------------------------------ *)

Lemma mem_In (k : string) (l : list string) : mem k l = true <-> In k l.
Proof.
  unfold mem. rewrite existsb_exists. split.
  - intros (x & Hx & He). apply String.eqb_eq in He. now subst.
  - intros H. exists k. split; [exact H|apply String.eqb_refl].
Qed.

Lemma mem_not_In (k : string) (l : list string) : mem k l = false <-> ~ In k l.
Proof. rewrite <- mem_In. now destruct (mem k l). Qed.

(** *** Counting *)

Lemma total_counter_incr (c : list (string * nat)) (k : string) :
  total (counter_incr c k) = S (total c).
Proof.
  unfold total, list_sum. induction c as [|[k' n] c IH]; [reflexivity|].
  cbn [counter_incr]. destruct (k' =? k)%string; cbn [map fold_right snd].
  - reflexivity.
  - rewrite IH. lia.
Qed.

Lemma total_fold (l : list string) (acc : list (string * nat)) :
  total (fold_left counter_incr l acc) = (total acc + List.length l)%nat.
Proof.
  revert acc. induction l as [|k l IH]; intros acc; cbn [fold_left List.length].
  - lia.
  - rewrite IH, total_counter_incr. lia.
Qed.

Lemma Counter_snoc (l : list string) (x : string) :
  Counter (l ++ [x]) = counter_incr (Counter l) x.
Proof. unfold Counter. now rewrite fold_left_app. Qed.

Lemma keys_counter_incr (c : list (string * nat)) (k : string) :
  keys (counter_incr c k) = if mem k (keys c) then keys c else keys c ++ [k].
Proof.
  unfold keys, mem. induction c as [|[k' n] c IH]; [reflexivity|].
  cbn [counter_incr map fst existsb].
  rewrite (String.eqb_sym k k').
  destruct (k' =? k)%string; cbn [orb map fst]; [reflexivity|].
  rewrite IH. now destruct (existsb (String.eqb k) (map fst c)).
Qed.

Lemma In_counter_incr (c : list (string * nat)) (x k : string) (n : nat) :
  NoDup (keys c) ->
  In (k, n) (counter_incr c x) ->
  (k <> x /\ In (k, n) c)
  \/ (k = x /\ ((exists m, n = S m /\ In (x, m) c)
                \/ (n = 1%nat /\ ~ In x (keys c)))).
Proof.
  unfold keys. induction c as [|[k' n'] c IH]; intros Hnd Hin.
  - destruct Hin as [[= <- <-]|[]]. right. split; [reflexivity|].
    right. split; [reflexivity|]. intros [].
  - cbn [map fst] in Hnd. inversion Hnd as [|? ? Hk' Hnd']; subst.
    cbn [counter_incr] in Hin.
    destruct (k' =? x)%string eqn:He.
    + apply String.eqb_eq in He. subst k'.
      destruct Hin as [[= <- <-]|Hin].
      * right. split; [reflexivity|]. left. exists n'. split; [reflexivity|].
        now left.
      * left. split; [|now right].
        intros ->. apply Hk'. change x with (fst (x, n)). now apply in_map.
    + apply String.eqb_neq in He.
      destruct Hin as [[= <- <-]|Hin].
      * left. split; [exact He|now left].
      * destruct (IH Hnd' Hin) as [[Hne Hc]|[-> [(m & -> & Hm)|[-> Hx]]]].
        -- left. split; [exact Hne|now right].
        -- right. split; [reflexivity|]. left. exists m. split; [reflexivity|].
           now right.
        -- right. split; [reflexivity|]. right. split; [reflexivity|].
           cbn [map fst]. intros [Heq|Hin']; [now apply He|now apply Hx].
Qed.

(** *** First occurrences *)

Lemma first_index_lt (k : string) (l : list string) :
  In k l -> (first_index k l < List.length l)%nat.
Proof.
  induction l as [|x l IH]; intros Hin; [destruct Hin|].
  cbn [first_index List.length].
  destruct (x =? k)%string eqn:He; [lia|].
  apply String.eqb_neq in He. destruct Hin as [Hx|Hin]; [contradiction|].
  specialize (IH Hin). lia.
Qed.

Lemma first_index_app_In (k : string) (l l' : list string) :
  In k l -> first_index k (l ++ l') = first_index k l.
Proof.
  induction l as [|x l IH]; intros Hin; [destruct Hin|].
  cbn [first_index app].
  destruct (x =? k)%string eqn:He; [reflexivity|].
  apply String.eqb_neq in He. destruct Hin as [Hx|Hin]; [contradiction|].
  now rewrite IH.
Qed.

Lemma first_index_app_new (k : string) (l : list string) :
  ~ In k l -> first_index k (l ++ [k]) = List.length l.
Proof.
  induction l as [|x l IH]; intros Hnin; cbn [first_index app List.length].
  - now rewrite String.eqb_refl.
  - destruct (x =? k)%string eqn:He.
    + apply String.eqb_eq in He. subst. exfalso. apply Hnin. now left.
    + rewrite IH; [reflexivity|]. intros H. apply Hnin. now right.
Qed.

Lemma occurrences_snoc (k x : string) (l : list string) :
  occurrences k (l ++ [x])
    = (occurrences k l + if (x =? k)%string then 1 else 0)%nat.
Proof.
  unfold occurrences. rewrite count_occ_app. cbn [count_occ].
  destruct (string_dec x k) as [->|Hne].
  - now rewrite String.eqb_refl.
  - apply String.eqb_neq in Hne. now rewrite Hne.
Qed.

Lemma occurrences_pos (k : string) (l : list string) :
  In k l <-> (0 < occurrences k l)%nat.
Proof. unfold occurrences. apply count_occ_In. Qed.

(** *** What the counter holds *)

Lemma StronglySorted_snoc {A} (R : A -> A -> Prop) (l : list A) (x : A) :
  StronglySorted R l -> Forall (fun a => R a x) l -> StronglySorted R (l ++ [x]).
Proof.
  induction 1 as [|a l Hs IH Ha]; intros Hall; cbn [app].
  - constructor; constructor.
  - inversion Hall as [|? ? Hax Hall']; subst. constructor; [now apply IH|].
    apply Forall_app. split; [exact Ha|]. constructor; [exact Hax|constructor].
Qed.

Lemma StronglySorted_impl_In {A} (R R' : A -> A -> Prop) (l : list A) :
  (forall a b, In a l -> In b l -> R a b -> R' a b) ->
  StronglySorted R l -> StronglySorted R' l.
Proof.
  intros Himp Hs. induction Hs as [|a l Hs IH Ha]; constructor.
  - apply IH. intros x y Hx Hy. apply Himp; now right.
  - rewrite Forall_forall in *. intros b Hb.
    apply Himp; [now left|now right|now apply Ha].
Qed.

Lemma StronglySorted_map_inv {A B} (f : A -> B) (R : B -> B -> Prop)
    (l : list A) :
  StronglySorted R (map f l) -> StronglySorted (fun a b => R (f a) (f b)) l.
Proof.
  induction l as [|a l IH]; intros Hs; [constructor|].
  cbn [map] in Hs. inversion Hs as [|? ? Hs' Ha]; subst.
  constructor; [now apply IH|]. rewrite Forall_map in Ha. exact Ha.
Qed.

(** The counter of a list: its keys are the elements of the list, each
    once, in the order they are first met, and each with the number of
    its occurrences. *)
Lemma Counter_spec (l : list string) :
  NoDup (keys (Counter l))
  /\ (forall k, In k (keys (Counter l)) <-> In k l)
  /\ StronglySorted (met_before l) (keys (Counter l))
  /\ (forall k n, In (k, n) (Counter l) -> n = occurrences k l).
Proof.
  induction l as [|x l (Hnd & Hkeys & Hsort & Hcount)] using rev_ind.
  - change (Counter []) with (@nil (string * nat)). cbn [keys map].
    split; [constructor|]. split; [tauto|]. split; [constructor|].
    intros k n [].
  - rewrite Counter_snoc.
    assert (Hk : keys (counter_incr (Counter l) x)
                 = if mem x (keys (Counter l)) then keys (Counter l)
                   else keys (Counter l) ++ [x]) by apply keys_counter_incr.
    destruct (mem x (keys (Counter l))) eqn:Hmem.
    + apply mem_In in Hmem. rewrite Hk.
      assert (Hxl : In x l) by now apply Hkeys.
      split; [exact Hnd|]. split; [|split].
      * intros k. rewrite Hkeys, in_app_iff. cbn [In].
        split; [tauto|]. intros [H|[<-|[]]]; assumption.
      * apply StronglySorted_impl_In with (R := met_before l); [|exact Hsort].
        intros a b Ha Hb. unfold met_before.
        rewrite !first_index_app_In by now apply Hkeys. trivial.
      * intros k n Hin. rewrite occurrences_snoc.
        destruct (In_counter_incr _ _ _ _ Hnd Hin)
          as [[Hne Hc]|[-> [(m & -> & Hm)|[-> Hx]]]].
        -- apply not_eq_sym, String.eqb_neq in Hne. rewrite Hne.
           rewrite (Hcount _ _ Hc). lia.
        -- rewrite String.eqb_refl, (Hcount _ _ Hm). lia.
        -- contradiction.
    + apply mem_not_In in Hmem. rewrite Hk.
      assert (Hxl : ~ In x l) by (intros H; now apply Hmem, Hkeys).
      split; [|split; [|split]].
      * apply NoDup_app; [exact Hnd|constructor; [intros []|constructor]|].
        intros a Ha [<-|[]]. contradiction.
      * intros k. rewrite !in_app_iff, Hkeys. tauto.
      * apply StronglySorted_snoc.
        -- apply StronglySorted_impl_In with (R := met_before l); [|exact Hsort].
           intros a b Ha Hb. unfold met_before.
           rewrite !first_index_app_In by now apply Hkeys. trivial.
        -- apply Forall_forall. intros a Ha. unfold met_before.
           apply Hkeys in Ha.
           rewrite (first_index_app_In a) by exact Ha.
           rewrite first_index_app_new by exact Hxl.
           now apply first_index_lt.
      * intros k n Hin. rewrite occurrences_snoc.
        destruct (In_counter_incr _ _ _ _ Hnd Hin)
          as [[Hne Hc]|[-> [(m & -> & Hm)|[-> Hx]]]].
        -- apply not_eq_sym, String.eqb_neq in Hne. rewrite Hne.
           rewrite (Hcount _ _ Hc). lia.
        -- exfalso. apply Hmem. change x with (fst (x, m)).
           unfold keys. now apply in_map.
        -- rewrite String.eqb_refl.
           assert (H0 : occurrences x l = 0%nat).
           { unfold occurrences. now apply count_occ_not_In. }
           rewrite H0. reflexivity.
Qed.

(** *** Sorting *)

Lemma In_insert_desc (x z : string * nat) (l : list (string * nat)) :
  In z (insert_desc x l) <-> z = x \/ In z l.
Proof.
  induction l as [|y l IH]; cbn [insert_desc].
  - cbn [In]. intuition congruence.
  - destruct (snd y <=? snd x)%nat; cbn [In] in *.
    + intuition congruence.
    + rewrite IH. intuition congruence.
Qed.

Lemma In_most_common (z : string * nat) (c : list (string * nat)) :
  In z (most_common c) <-> In z c.
Proof.
  induction c as [|x c IH]; [reflexivity|].
  cbn [most_common fold_right]. fold (most_common c).
  rewrite In_insert_desc, IH. cbn [In]. intuition congruence.
Qed.

Lemma Permutation_insert_desc (x : string * nat) (l : list (string * nat)) :
  Permutation (insert_desc x l) (x :: l).
Proof.
  induction l as [|y l IH]; cbn [insert_desc]; [reflexivity|].
  destruct (snd y <=? snd x)%nat; [reflexivity|].
  rewrite IH. apply perm_swap.
Qed.

Lemma Permutation_most_common (c : list (string * nat)) :
  Permutation (most_common c) c.
Proof.
  induction c as [|x c IH]; [reflexivity|].
  cbn [most_common fold_right]. fold (most_common c).
  rewrite Permutation_insert_desc. now constructor.
Qed.

Lemma total_cons (x : string * nat) (c : list (string * nat)) :
  total (x :: c) = (snd x + total c)%nat.
Proof. reflexivity. Qed.

Lemma total_insert_desc (x : string * nat) (l : list (string * nat)) :
  total (insert_desc x l) = (snd x + total l)%nat.
Proof.
  induction l as [|y l IH]; cbn [insert_desc]; [reflexivity|].
  destruct (snd y <=? snd x)%nat; [reflexivity|].
  rewrite !total_cons, IH. lia.
Qed.

Lemma total_most_common (c : list (string * nat)) :
  total (most_common c) = total c.
Proof.
  induction c as [|x c IH]; [reflexivity|].
  cbn [most_common fold_right]. fold (most_common c).
  now rewrite total_insert_desc, total_cons, IH.
Qed.

Lemma insert_desc_sorted (T : string * nat -> string * nat -> Prop)
    (x : string * nat) (l : list (string * nat)) :
  StronglySorted (desc_then T) l -> Forall (T x) l ->
  StronglySorted (desc_then T) (insert_desc x l).
Proof.
  induction 1 as [|y l Hs IH Hy]; intros Hx; cbn [insert_desc].
  - constructor; constructor.
  - inversion Hx as [|? ? Hxy Hxl]; subst.
    destruct (snd y <=? snd x)%nat eqn:Hle.
    + apply Nat.leb_le in Hle.
      constructor; [now constructor|].
      constructor.
      * unfold desc_then. destruct (Nat.eq_dec (snd x) (snd y)); [right|left];
          [now split|lia].
      * rewrite Forall_forall in *. intros z Hz.
        specialize (Hy z Hz). specialize (Hxl z Hz). unfold desc_then in *.
        destruct (Nat.eq_dec (snd x) (snd z)); [right; now split|left].
        destruct Hy as [Hlt|[Heq _]]; lia.
    + apply Nat.leb_gt in Hle.
      constructor; [now apply IH|].
      apply Forall_forall. intros z Hz. apply In_insert_desc in Hz.
      destruct Hz as [->|Hz]; [now left|].
      rewrite Forall_forall in Hy. now apply Hy.
Qed.

Lemma most_common_sorted (T : string * nat -> string * nat -> Prop)
    (c : list (string * nat)) :
  StronglySorted T c -> StronglySorted (desc_then T) (most_common c).
Proof.
  induction 1 as [|x c Hs IH Hx]; [constructor|].
  cbn [most_common fold_right]. fold (most_common c).
  apply insert_desc_sorted; [exact IH|].
  rewrite Forall_forall in *. intros z Hz. apply Hx.
  now apply In_most_common.
Qed.

Lemma flat_map_singleton {A B} (f : A -> B) (l : list A) :
  flat_map (fun x => [f x]) l = map f l.
Proof. induction l as [|x l IH]; [reflexivity|]. cbn. now rewrite IH. Qed.

(** C8.  With the node target and no selector, [print_nodes] writes, after
    its header, the histogram of operation types, a rule, and then every
    node in collection order, non-detailed. The histogram has one entry
    for each operation type that occurs, with the number of its nodes;
    its counts sum to the number of nodes; and it is ordered by descending
    count, entries of equal count in the order their operation types are
    first met in the node list. *)
Theorem node_histogram (E : Env) (g : GraphProto) (detail : bool) :
  let ops := map n_op_type (g_node g) in
  let hist := most_common (Counter ops) in
  print_nodes E g [] [] detail
    = (node_header ++ map hist_line hist ++ [rule]
       ++ flat_map (fun n => rendered (print_node E n false)) (g_node g),
       Ok tt)
  /\ total hist = List.length (g_node g)
  /\ StronglySorted (hist_before ops) hist
  /\ NoDup (keys hist)
  /\ (forall k, In k (keys hist) <-> In k ops)
  /\ (forall k n, In (k, n) hist -> n = occurrences k ops).
Proof.
  intros ops hist.
  destruct (Counter_spec ops) as (Hnd & Hkeys & Hsort & Hcount).
  repeat apply conj.
  - unfold print_nodes. rewrite with_header.
    change (len (@nil Z) >? 0) with false.
    change (len (@nil string) >? 0) with false. cbv iota zeta.
    fold ops. fold hist.
    rewrite (for_each_prints _ hist) by (intros [op n]; reflexivity).
    rewrite bind_ok. cbn [fst snd].
    rewrite (for_each_prints (fun node => print_node E node false))
      by auto with fmt.
    cbn [print bind fst snd String.concat app].
    rewrite <- flat_map_singleton.
    rewrite (flat_map_ext _ (fun x => [hist_line x]))
      by (now intros [op n]).
    reflexivity.
  - unfold hist. rewrite total_most_common. unfold Counter.
    rewrite total_fold. unfold ops. now rewrite length_map.
  - change (StronglySorted
              (desc_then (fun a b => met_before ops (fst a) (fst b))) hist).
    apply most_common_sorted.
    apply (StronglySorted_map_inv fst (met_before ops)). exact Hsort.
  - unfold keys, hist.
    apply (Permutation_NoDup (l := keys (Counter ops))); [|exact Hnd].
    unfold keys. apply Permutation_map. symmetry. apply Permutation_most_common.
  - intros k. rewrite <- Hkeys. unfold keys, hist. rewrite !in_map_iff.
    split; intros (z & Hz & Hin); exists z; (split; [exact Hz|]);
      now apply In_most_common.
  - intros k n Hin. apply Hcount. now apply In_most_common.
Qed.

(** The scenario of the specification: Conv, Relu, Conv. *)
Example histogram_conv_relu_conv :
  most_common (Counter ["Conv"; "Relu"; "Conv"]) = [("Conv", 2%nat); ("Relu", 1%nat)]
  /\ most_common (Counter ["Add"; "Conv"; "Relu"; "Conv"; "Mul"; "Mul"])
       = [("Conv", 2%nat); ("Mul", 2%nat); ("Add", 1%nat); ("Relu", 1%nat)].
Proof. split; reflexivity. Qed.

(* ------------------------------------------------------------------ *)
(** ** Further properties: the report driver                            *)
(* ------------------------------------------------------------------ *)

Lemma len_eqb_nil {A} (l : list A) : (len l =? 0) = true <-> l = [].
Proof.
  destruct l as [|x l]; [split; reflexivity|].
  split; [|discriminate]. unfold len. cbn [List.length].
  intros H. apply Z.eqb_eq in H. lia.
Qed.

Lemma len_eqb_cons {A} (l : list A) : l <> [] -> (len l =? 0) = false.
Proof.
  intros Hne. destruct (len l =? 0) eqn:H; [|reflexivity].
  apply len_eqb_nil in H. contradiction.
Qed.

(** X1.  Whenever both the index list and the name list are given, [run]
    ends with ConflictingSelectors: whatever the other flags hold, before
    the model is loaded, and with nothing written. *)
Theorem run_conflicting_selectors (E : Env)
    (load : string -> outcome ModelProto) (args : Namespace) :
  indices args <> [] -> names args <> [] ->
  run E load args = ([], Raise ConflictingSelectors).
Proof.
  intros Hi Hn. unfold run, run_checks. cbv zeta.
  rewrite (len_eqb_cons _ Hi), (len_eqb_cons _ Hn). reflexivity.
Qed.

Lemma run_conflicting_selectors_witness :
  [0] <> [] /\ ["conv1"] <> []
  /\ run plain_env load_fails
       (parsed "m.onnx" true true true [0] ["conv1"] true)
       = ([], Raise ConflictingSelectors).
Proof.
  assert (Hi : [0] <> []) by discriminate.
  assert (Hn : ["conv1"] <> []) by discriminate.
  split; [exact Hi|]. split; [exact Hn|].
  exact (run_conflicting_selectors plain_env load_fails
           (parsed "m.onnx" true true true [0] ["conv1"] true) Hi Hn).
Defined.

(** X2.  Whenever the detail flag is set and neither list is given, [run]
    ends with DetailWithoutSelector, whatever the target flags hold,
    before the model is loaded, and with nothing written. *)
Theorem run_detail_without_selector (E : Env)
    (load : string -> outcome ModelProto) (args : Namespace) :
  indices args = [] -> names args = [] -> truthy (detail args) = true ->
  run E load args = ([], Raise DetailWithoutSelector).
Proof.
  intros Hi Hn Hd. unfold run, run_checks. cbv zeta.
  rewrite Hi, Hn, Hd. reflexivity.
Qed.

Lemma run_detail_without_selector_witness :
  run plain_env load_fails (parsed "m.onnx" false true true [] [] true)
    = ([], Raise DetailWithoutSelector).
Proof.
  exact (run_detail_without_selector plain_env load_fails
           (parsed "m.onnx" false true true [] [] true)
           eq_refl eq_refl eq_refl).
Defined.

(** X3.  When the checks pass and the loader fails, [run] ends with the
    loader's error and has written nothing: no block is printed for a
    model that could not be read. *)
Theorem run_load_failure (E : Env) (load : string -> outcome ModelProto)
    (args : Namespace) (e : exn) :
  run_checks args = ([], Ok tt) ->
  load (input_path args) = Raise e ->
  run E load args = ([], Raise e).
Proof.
  intros Hc Hl. unfold run. rewrite Hc, bind_ok. unfold lift.
  rewrite Hl. reflexivity.
Qed.

Lemma run_load_failure_witness :
  run plain_env load_fails (parsed "m.onnx" true true false [0] [] true)
    = ([], Raise LoadError).
Proof.
  exact (run_load_failure plain_env load_fails
           (parsed "m.onnx" true true false [0] [] true) LoadError
           eq_refl eq_refl).
Defined.

(** The meta block only prints. *)
Lemma print_meta_prints (E : Env) (m : ModelProto) : prints (print_meta E m).
Proof. unfold prints. now rewrite print_meta_lines. Qed.

(** Three blocks run under their flags, a flag recording whether any
    ran, and a fallback when none did. *)
Lemma blocks_sequence (bm bn bt : bool) (pm pn pt fb : M unit) :
  (pa <- (if bm then pm ;; ret true else ret false) ;;
   pa <- (if bn then pn ;; ret true else ret pa) ;;
   pa <- (if bt then pt ;; ret true else ret pa) ;;
   when (negb pa) fb)
  = (if bm || bn || bt then when bm pm ;; when bn pn ;; when bt pt else fb).
Proof.
  destruct pm as [om [[]|em]], pn as [on [[]|en]], pt as [ot [[]|et]],
    fb as [ofb rfb], bm, bn, bt;
    cbn [bind ret when negb orb fst snd app];
    rewrite ?app_nil_r, <- ?app_assoc; reflexivity.
Qed.

(** X4.  Once the checks have passed and the model is loaded, [run] is
    the meta block, the node block and the tensor block, each if its flag
    is set, in that order; the fallback call, which raises [TypeError], is
    made exactly when no flag is set. So a block that raises ends the
    command before the blocks after it: when the node block fails, what
    was written is the meta block and the node block's lines, and the
    tensor block is not started. *)
Theorem run_sequence (E : Env) (load : string -> outcome ModelProto)
    (args : Namespace) (m : ModelProto) :
  run_checks args = ([], Ok tt) ->
  load (input_path args) = Ok m ->
  let d := truthy (detail args) in
  let meta_block := when (truthy (meta args)) (print_meta E m) in
  let node_block :=
    when (truthy (node args))
      (print_nodes E (graph m) (indices args) (names args) d) in
  let tensor_block :=
    when (truthy (tensor args))
      (print_tensor E (graph m) (indices args) (names args) d) in
  run E load args
    = (if truthy (meta args) || truthy (node args) || truthy (tensor args)
       then meta_block ;; node_block ;; tensor_block
       else ([], Raise fallback_error))
  /\ (forall e, truthy (node args) = true -> ending node_block = Raise e ->
        run E load args
          = (rendered meta_block ++ rendered node_block, Raise e)).
Proof.
  intros Hc Hl d meta_block node_block tensor_block.
  assert (Hrun : run E load args
    = (if truthy (meta args) || truthy (node args) || truthy (tensor args)
       then meta_block ;; node_block ;; tensor_block
       else ([], Raise fallback_error))).
  { unfold run. rewrite Hc, bind_ok. unfold lift. rewrite Hl.
    rewrite bind_ok. cbn [fst snd app]. rewrite <- surjective_pairing.
    cbv zeta. apply blocks_sequence. }
  split; [exact Hrun|].
  intros e Hn He. rewrite Hrun, Hn, orb_true_r. cbn [orb].
  unfold ending, rendered in *.
  destruct meta_block as [om [[]|em]] eqn:Hmb.
  - destruct node_block as [on rn]. cbn [snd] in He. subst rn. reflexivity.
  - exfalso. subst meta_block.
    pose proof (print_meta_prints E m) as Hm. unfold prints in Hm.
    destruct (truthy (meta args)); cbn [when] in Hmb.
    + rewrite Hmb in Hm. discriminate.
    + discriminate.
Qed.

Lemma run_sequence_witness :
  run plain_env (loads (model_of one_of_each))
      (parsed "m.onnx" true true true [0] [] false)
    = (rendered (print_meta plain_env (model_of one_of_each))
       ++ node_header,
       Raise (node_index_error one_of_each 0)).
Proof.
  exact (proj2 (run_sequence plain_env (loads (model_of one_of_each))
                  (parsed "m.onnx" true true true [0] [] false)
                  (model_of one_of_each) eq_refl eq_refl)
           (node_index_error one_of_each 0) eq_refl eq_refl).
Defined.

(** X5.  The meta block never fails and is eight lines plus one per
    metadata pair, whatever the model holds; its first two lines are its
    title and a rule. *)
Theorem print_meta_line_count (E : Env) (m : ModelProto) :
  ending (print_meta E m) = Ok tt
  /\ List.length (rendered (print_meta E m))
       = (8 + List.length (metadata_props m))%nat
  /\ firstn 2 (rendered (print_meta E m)) = ["Meta information:"; rule].
Proof.
  rewrite print_meta_lines. unfold ending, rendered. cbn [fst snd].
  repeat split. rewrite length_app, length_map. reflexivity.
Qed.

(* ------------------------------------------------------------------ *)
(** ** Further properties: the tensor listing                           *)
(* ------------------------------------------------------------------ *)

Lemma length_flat_map_one {A} (f : A -> list string) (l : list A) :
  (forall x, List.length (f x) = 1%nat) ->
  List.length (flat_map f l) = List.length l.
Proof.
  intros Hf. induction l as [|x l IH]; [reflexivity|].
  cbn [flat_map]. rewrite length_app, Hf, IH. reflexivity.
Qed.

(** The tensor listing with no selector, as an equation. *)
Lemma print_tensor_no_selector (E : Env) (g : GraphProto) (d : bool) :
  print_tensor E g [] [] d
    = (tensor_header
       ++ flat_map (fun t => rendered (print_value_info E t)) (g_value_info g)
       ++ flat_map (fun t => rendered (print_initializer E t false))
            (g_initializer g),
       Ok tt).
Proof.
  unfold print_tensor. rewrite with_header.
  change (len (@nil Z) >? 0) with false.
  change (len (@nil string) >? 0) with false. cbv iota.
  rewrite (for_each_prints (print_value_info E)) by auto with fmt.
  rewrite bind_ok.
  rewrite (for_each_prints (fun t => print_initializer E t false))
    by auto with fmt.
  reflexivity.
Qed.

(** X6.  With no selector the tensor listing reads only the value-infos
    and the initializers: two graphs that agree on these give the same
    output, whatever their inputs, outputs and nodes and whatever the
    detail flag, and the output is the two header lines and one line for
    each value-info and each initializer. Graph inputs and outputs are not
    listed in this mode. *)
Theorem print_tensor_all_reads_two_collections (E : Env) (g g' : GraphProto)
    (d d' : bool) :
  g_value_info g = g_value_info g' ->
  g_initializer g = g_initializer g' ->
  print_tensor E g [] [] d = print_tensor E g' [] [] d'
  /\ List.length (rendered (print_tensor E g [] [] d))
       = (2 + List.length (g_value_info g) + List.length (g_initializer g))%nat.
Proof.
  intros Hv Hi.
  rewrite (print_tensor_no_selector E g d), (print_tensor_no_selector E g' d').
  rewrite Hv, Hi. split; [reflexivity|].
  unfold rendered at 1. cbn [fst]. unfold tensor_header.
  rewrite !length_app, !length_flat_map_one by reflexivity.
  rewrite <- Hv, <- Hi. cbn [List.length]. lia.
Qed.

Lemma print_tensor_all_reads_two_collections_witness :
  print_tensor plain_env one_of_each [] [] true
    = print_tensor plain_env
        (mkGraph "other" [node_a] [] [] [vi_x] [init_w] [] []) [] [] false
  /\ List.length (rendered (print_tensor plain_env one_of_each [] [] true))
       = 4%nat.
Proof.
  exact (print_tensor_all_reads_two_collections plain_env one_of_each
           (mkGraph "other" [node_a] [] [] [vi_x] [init_w] [] [])
           true false eq_refl eq_refl).
Defined.

(* ------------------------------------------------------------------ *)
(** ** Further properties: nodes by index                               *)
(* ------------------------------------------------------------------ *)





(** X7.  Under the node target, a non-empty list of indices that are all
    positions of the node collection is answered by the nodes at those
    positions, in the order requested (a position asked twice is written
    twice), and the command ends normally. *)
Theorem print_nodes_indices_all_valid (E : Env) (g : GraphProto)
    (detail : bool) (nms : list string) (idxs : list Z) :
  idxs <> [] ->
  Forall (fun j => 0 <= j /\ valid j (g_node g) = true) idxs ->
  print_nodes E g idxs nms detail
    = (node_header
       ++ flat_map (match_at (fun n => print_node E n detail) (g_node g)) idxs,
       Ok tt).
Proof.
  intros Hne Hall. rewrite print_nodes_indices by exact Hne.
  rewrite (for_each_all_valid _
             (match_at (fun n => print_node E n detail) (g_node g))
             (fun j => valid j (g_node g))); [reflexivity| |exact Hall].
  intros j Hj Hok. now rewrite node_index_body_nonneg, Hok.
Qed.

Lemma print_nodes_indices_all_valid_witness :
  print_nodes plain_env three_nodes [2; 0; 2] [] false
    = (node_header
       ++ rendered (print_node plain_env node_c false)
       ++ rendered (print_node plain_env node_a false)
       ++ rendered (print_node plain_env node_c false),
       Ok tt).
Proof.
  assert (Hne : [2; 0; 2] <> []) by discriminate.
  assert (Hall : Forall (fun j => 0 <= j /\ valid j (g_node three_nodes) = true)
                   [2; 0; 2]).
  { repeat constructor; discriminate. }
  exact (print_nodes_indices_all_valid plain_env three_nodes false []
           [2; 0; 2] Hne Hall).
Defined.



(** What the loop body of the node path does at a negative index. *)
Lemma node_index_body_negative (E : Env) (g : GraphProto) (detail : bool)
    (i : Z) :
  i < 0 ->
  node_index_body E g detail i
    = match counted_from_end (g_node g) i with
      | Some n => (rendered (print_node E n detail), Ok tt)
      | None => ([], Raise IndexError)
      end.
Proof.
  intros Hi. unfold node_index_body.
  assert (Hge : (i >=? len (g_node g)) = false).
  { rewrite Z.geb_leb. apply Z.leb_gt. pose proof (len_nonneg (g_node g)). lia. }
  rewrite Hge. cbn [when]. rewrite bind_ret_l.
  rewrite (getitem_negative (g_node g) i Hi). unfold counted_from_end.
  destruct (0 <=? len (g_node g) + i); [|reflexivity].
  destruct (from_end (g_node g) i) as [n|]; [|reflexivity].
  rewrite bind_ret_l. apply prints_eq. auto with fmt.
Qed.

(** X9.  Under the node target the only bound tested is the upper one, so
    a negative index is never reported as out of range by the command
    itself: when the node collection has at least [-i] nodes, the node
    counted from the end is written and the command ends normally;
    otherwise the access raises [IndexError] after the header. *)
Theorem print_nodes_negative_index (E : Env) (g : GraphProto) (detail : bool)
    (nms : list string) (i : Z) :
  i < 0 ->
  (0 <= len (g_node g) + i ->
     exists n, from_end (g_node g) i = Some n
       /\ print_nodes E g [i] nms detail
            = (node_header ++ rendered (print_node E n detail), Ok tt))
  /\ (len (g_node g) + i < 0 ->
        print_nodes E g [i] nms detail = (node_header, Raise IndexError)).
Proof.
  intros Hi.
  assert (Hp : print_nodes E g [i] nms detail
               = (node_header ++ fst (node_index_body E g detail i),
                  snd (node_index_body E g detail i))).
  { rewrite print_nodes_indices by discriminate. cbn [for_each].
    destruct (node_index_body E g detail i) as [o [[]|e]];
      cbn [bind ret fst snd]; rewrite ?app_nil_r; reflexivity. }
  rewrite Hp, (node_index_body_negative E g detail i Hi). split.
  - intros Hj. destruct (counted_from_end_some (g_node g) i Hi Hj) as [n Hn].
    exists n. rewrite Hn. split; [|reflexivity].
    unfold counted_from_end in Hn.
    destruct (0 <=? len (g_node g) + i); [exact Hn|discriminate].
  - intros Hj. rewrite (counted_from_end_none _ _ Hj).
    cbn [fst snd]. now rewrite app_nil_r.
Qed.

Lemma print_nodes_negative_index_witness :
  print_nodes plain_env three_nodes [-4] [] false
    = (node_header, Raise IndexError).
Proof.
  assert (Hi : -4 < 0) by reflexivity.
  exact (proj2 (print_nodes_negative_index plain_env three_nodes false []
                  (-4) Hi) eq_refl).
Defined.

(* ------------------------------------------------------------------ *)
(** ** Further properties: lookups by name                              *)
(* ------------------------------------------------------------------ *)

(** X10.  The scan of one collection for a name writes the first element
    that bears it and stops: elements after it, bearers or not, are not
    written, and the found flag comes out raised whatever it was. *)
Theorem scan_name_first_bearer {A} (name_of : A -> string)
    (emit : A -> M unit) (name : string) (pre post : list A) (x : A)
    (b : bool) :
  Forall (fun y => name_of y <> name) pre ->
  name_of x = name ->
  ending (emit x) = Ok tt ->
  scan_name name_of emit name (pre ++ x :: post) b
    = (rendered (emit x), Ok true).
Proof.
  intros Hpre Hx He. induction Hpre as [|y pre Hy _ IH]; cbn [app scan_name].
  - apply String.eqb_eq in Hx. rewrite Hx.
    rewrite (bind_prints _ _ He). cbn [ret fst snd]. now rewrite app_nil_r.
  - apply String.eqb_neq in Hy. rewrite Hy. exact IH.
Qed.

Lemma scan_name_first_bearer_witness :
  scan_name n_name (fun n => print_node plain_env n true) "a"
      (node_c :: node_a :: node_a2 :: nil) false
    = (rendered (print_node plain_env node_a true), Ok true).
Proof.
  assert (Hpre : Forall (fun y => n_name y <> "a") [node_c]).
  { repeat constructor. discriminate. }
  exact (scan_name_first_bearer n_name (fun n => print_node plain_env n true)
           "a" [node_c] [node_a2] node_a false Hpre eq_refl eq_refl).
Defined.

(** X11.  The scan of a collection in which no element bears the name
    writes nothing and leaves the found flag as it was; the formatter is
    never called, so this holds whatever the formatter would do. *)
Theorem scan_name_no_bearer {A} (name_of : A -> string) (emit : A -> M unit)
    (name : string) (coll : list A) (b : bool) :
  Forall (fun y => name_of y <> name) coll ->
  scan_name name_of emit name coll b = ([], Ok b).
Proof.
  intros Hall. induction Hall as [|y coll Hy _ IH]; cbn [scan_name].
  - reflexivity.
  - apply String.eqb_neq in Hy. rewrite Hy. exact IH.
Qed.

Lemma scan_name_no_bearer_witness :
  scan_name n_name (fun n => print_node plain_env n true) "zzz"
      (g_node three_nodes) true
    = ([], Ok true).
Proof.
  assert (Hall : Forall (fun y => n_name y <> "zzz") (g_node three_nodes)).
  { repeat constructor; discriminate. }
  exact (scan_name_no_bearer n_name (fun n => print_node plain_env n true)
           "zzz" (g_node three_nodes) true Hall).
Defined.

Lemma match_named_absent {A} (name_of : A -> string) (emit : A -> M unit)
    (name : string) (coll : list A) :
  has_name name_of name coll = false -> match_named name_of emit name coll = [].
Proof.
  unfold has_name, match_named, first_named.
  induction coll as [|x coll IH]; [reflexivity|].
  cbn [existsb find]. destruct (name_of x =? name)%string; [discriminate|].
  exact IH.
Qed.

Lemma flat_map_nil {A B} (f : A -> list B) (l : list A) :
  (forall x, In x l -> f x = []) -> flat_map f l = [].
Proof.
  induction l as [|x l IH]; intros Hf; [reflexivity|].
  cbn [flat_map]. rewrite (Hf x) by now left.
  apply IH. intros y Hy. apply Hf. now right.
Qed.

Lemma existsb_false_In {A} (p : A -> bool) (l : list A) (x : A) :
  existsb p l = false -> In x l -> p x = false.
Proof.
  intros He Hin. destruct (p x) eqn:Hp; [|reflexivity].
  assert (existsb p l = true) by (apply existsb_exists; now exists x).
  congruence.
Qed.

(** X12.  Under the node target, for a non-empty list of names, the lines
    written after the header are, name by name in the order requested,
    the first node of the collection bearing that name when there is one;
    a name borne by several nodes is answered by the first of them only,
    and a name asked twice is answered twice. *)
Theorem print_nodes_by_name (E : Env) (g : GraphProto) (detail : bool)
    (nms : list string) :
  nms <> [] ->
  rendered (print_nodes E g [] nms detail)
    = node_header
      ++ flat_map (fun name =>
           match first_named n_name name (g_node g) with
           | Some n => rendered (print_node E n detail)
           | None => []
           end) nms.
Proof.
  intros Hne. unfold rendered. now rewrite print_nodes_names.
Qed.

Lemma print_nodes_by_name_witness :
  rendered (print_nodes plain_env three_nodes [] ["c"; "a"; "c"] true)
    = node_header
      ++ rendered (print_node plain_env node_c true)
      ++ rendered (print_node plain_env node_a true)
      ++ rendered (print_node plain_env node_c true).
Proof.
  assert (Hne : ["c"; "a"; "c"] <> []) by discriminate.
  exact (print_nodes_by_name plain_env three_nodes true ["c"; "a"; "c"] Hne).
Defined.

(** X13.  When a lookup by name fails, under either target, nothing but
    the two header lines has been written: the header comes out before
    the search, and the error only after every name was searched in
    vain. *)
Theorem name_lookup_failure_writes_header_only (E : Env) (g : GraphProto)
    (detail : bool) (nms : list string) :
  nms <> [] ->
  (existsb (tensor_has_name g) nms = false ->
     print_tensor E g [] nms detail
       = (tensor_header,
          Raise (ValueError ("No tensor found with name " +++ last nms ""))))
  /\ (existsb (fun name => has_name n_name name (g_node g)) nms = false ->
        print_nodes E g [] nms detail
          = (node_header,
             Raise (ValueError ("No node found with name " +++ last nms "")))).
Proof.
  intros Hne. split; intros Habs.
  - rewrite print_tensor_names by exact Hne. rewrite Habs.
    rewrite flat_map_nil; [now rewrite app_nil_r|].
    intros name Hin.
    pose proof (existsb_false_In _ _ _ Habs Hin) as Hn.
    unfold tensor_has_name in Hn.
    apply orb_false_iff in Hn as [Hn Ho].
    apply orb_false_iff in Hn as [Hn Hi].
    apply orb_false_iff in Hn as [Hv Ht].
    unfold tensor_name_matches.
    now rewrite !match_named_absent by assumption.
  - rewrite print_nodes_names by exact Hne. rewrite Habs.
    rewrite flat_map_nil; [now rewrite app_nil_r|].
    intros name Hin. apply match_named_absent.
    exact (existsb_false_In _ _ _ Habs Hin).
Qed.

Lemma name_lookup_failure_writes_header_only_witness :
  print_tensor plain_env one_of_each [] ["foo"; "bar"] true
    = (tensor_header, Raise (ValueError "No tensor found with name bar"))
  /\ print_nodes plain_env three_nodes [] ["foo"; "bar"] true
    = (node_header, Raise (ValueError "No node found with name bar")).
Proof.
  assert (Hne : ["foo"; "bar"] <> []) by discriminate.
  split.
  - exact (proj1 (name_lookup_failure_writes_header_only plain_env one_of_each
                    true ["foo"; "bar"] Hne) eq_refl).
  - exact (proj2 (name_lookup_failure_writes_header_only plain_env three_nodes
                    true ["foo"; "bar"] Hne) eq_refl).
Defined.

(* ------------------------------------------------------------------ *)
(** ** Further properties: what the selectors and flags do not change   *)
(* ------------------------------------------------------------------ *)

(** Loops whose bodies end alike end alike. *)
Lemma for_each_ending_ext {A} (f f' : A -> M unit) (l : list A) :
  (forall x, snd (f x) = snd (f' x)) ->
  snd (for_each l f) = snd (for_each l f').
Proof.
  intros Hf. induction l as [|x l IH]; [reflexivity|].
  cbn [for_each]. specialize (Hf x).
  destruct (f x) as [o [[]|e]], (f' x) as [o' [[]|e']]; cbn [snd] in Hf;
    try discriminate; cbn [bind].
  - destruct (for_each l f) as [o1 r1], (for_each l f') as [o2 r2].
    exact IH.
  - exact Hf.
Qed.

Lemma tensor_index_body_ending (E E' : Env) (g : GraphProto) (d d' : bool)
    (i : Z) :
  snd (tensor_index_body E g d i) = snd (tensor_index_body E' g d' i).
Proof.
  destruct (Z.lt_ge_cases i 0) as [Hneg|Hpos].
  - rewrite !tensor_index_body_negative by exact Hneg.
    destruct (counted_from_end (g_value_info g) i),
      (counted_from_end (g_initializer g) i),
      (counted_from_end (g_input g) i),
      (counted_from_end (g_output g) i); reflexivity.
  - rewrite !tensor_index_body_nonneg by exact Hpos.
    now destruct (valid_somewhere g i).
Qed.

Lemma node_index_body_ending (E E' : Env) (g : GraphProto) (d d' : bool)
    (i : Z) :
  snd (node_index_body E g d i) = snd (node_index_body E' g d' i).
Proof.
  destruct (Z.lt_ge_cases i 0) as [Hneg|Hpos].
  - rewrite !node_index_body_negative by exact Hneg.
    now destruct (counted_from_end (g_node g) i).
  - rewrite !node_index_body_nonneg by exact Hpos.
    now destruct (valid i (g_node g)).
Qed.

Lemma print_tensor_ending (E E' : Env) (g : GraphProto)
    (idxs : list Z) (nms : list string) (d d' : bool) :
  snd (print_tensor E g idxs nms d) = snd (print_tensor E' g idxs nms d').
Proof.
  destruct idxs as [|i idxs].
  - destruct nms as [|n nms].
    + now rewrite !print_tensor_no_selector.
    + now rewrite !print_tensor_names by discriminate.
  - rewrite !print_tensor_indices by discriminate. cbn [snd].
    apply for_each_ending_ext. intros j. apply tensor_index_body_ending.
Qed.

Lemma print_nodes_no_selector_ending (E : Env) (g : GraphProto) (d : bool) :
  snd (print_nodes E g [] [] d) = Ok tt.
Proof.
  unfold print_nodes. rewrite with_header.
  change (len (@nil Z) >? 0) with false.
  change (len (@nil string) >? 0) with false. cbv iota zeta. cbn [snd].
  rewrite (for_each_prints _ (most_common _))
    by (intros [op n]; reflexivity).
  rewrite bind_ok. cbn [snd].
  rewrite (for_each_prints (fun node => print_node E node false))
    by auto with fmt.
  reflexivity.
Qed.

Lemma print_nodes_ending (E E' : Env) (g : GraphProto)
    (idxs : list Z) (nms : list string) (d d' : bool) :
  snd (print_nodes E g idxs nms d) = snd (print_nodes E' g idxs nms d').
Proof.
  destruct idxs as [|i idxs].
  - destruct nms as [|n nms].
    + now rewrite !print_nodes_no_selector_ending.
    + now rewrite !print_nodes_names by discriminate.
  - rewrite !print_nodes_indices by discriminate. cbn [snd].
    apply for_each_ending_ext. intros j. apply node_index_body_ending.
Qed.

(** X14.  Whether a lookup succeeds, and with which error it fails, does
    not depend on the detail flag nor on how elements are rendered: for
    every graph, index list (of any signs) and name list, [print_tensor]
    ends the same way with and without detail, and so does
    [print_nodes]. *)
Theorem detail_never_changes_the_ending (E E' : Env) (g : GraphProto)
    (idxs : list Z) (nms : list string) (d d' : bool) :
  ending (print_tensor E g idxs nms d) = ending (print_tensor E' g idxs nms d')
  /\ ending (print_nodes E g idxs nms d) = ending (print_nodes E' g idxs nms d').
Proof. split; [apply print_tensor_ending|apply print_nodes_ending]. Qed.

(** X15.  When the index list is not empty the name list is not read:
    both listings answer exactly as with no names. (The checks of [run]
    refuse the two lists together, but the listings themselves give the
    indices precedence.) *)
Theorem indices_take_precedence_over_names (E : Env) (g : GraphProto)
    (detail : bool) (idxs : list Z) (nms : list string) :
  idxs <> [] ->
  print_tensor E g idxs nms detail = print_tensor E g idxs [] detail
  /\ print_nodes E g idxs nms detail = print_nodes E g idxs [] detail.
Proof.
  intros Hne.
  now rewrite !print_tensor_indices, !print_nodes_indices by exact Hne.
Qed.

Lemma indices_take_precedence_over_names_witness :
  print_tensor plain_env one_of_each [0] ["zzz"] true
    = print_tensor plain_env one_of_each [0] [] true
  /\ print_nodes plain_env three_nodes [0] ["zzz"] true
    = print_nodes plain_env three_nodes [0] [] true.
Proof.
  assert (Hne : [0] <> []) by discriminate.
  split.
  - exact (proj1 (indices_take_precedence_over_names plain_env one_of_each
                    true [0] ["zzz"] Hne)).
  - exact (proj2 (indices_take_precedence_over_names plain_env three_nodes
                    true [0] ["zzz"] Hne)).
Defined.

Lemma valid_downward {A} (coll : list A) (i j : Z) :
  0 <= j <= i -> valid i coll = true -> valid j coll = true.
Proof.
  unfold valid. intros Hj Hv. apply andb_true_iff in Hv as [_ Hlt].
  apply Z.ltb_lt in Hlt. apply andb_true_iff. split.
  - apply Z.leb_le. lia.
  - apply Z.ltb_lt. lia.
Qed.

(** X16.  Index lookups are downward closed: if the lookup of an index
    that is not negative succeeds, under either target, so does the
    lookup of every smaller index that is not negative. *)
Theorem smaller_index_also_found (E : Env) (g : GraphProto) (detail : bool)
    (nms : list string) (i j : Z) :
  0 <= j <= i ->
  (ending (print_tensor E g [i] nms detail) = Ok tt ->
   ending (print_tensor E g [j] nms detail) = Ok tt)
  /\ (ending (print_nodes E g [i] nms detail) = Ok tt ->
      ending (print_nodes E g [j] nms detail) = Ok tt).
Proof.
  intros Hj. assert (Hi : 0 <= i) by lia. destruct Hj as [Hj0 Hji].
  unfold ending. split.
  - rewrite !print_tensor_single. cbn [snd]. unfold ending.
    rewrite !tensor_index_body_nonneg by assumption.
    destruct (valid_somewhere g i) eqn:Hv; [intros _|discriminate].
    assert (Hvj : valid_somewhere g j = true).
    { unfold valid_somewhere in *.
      repeat (apply orb_true_iff in Hv; destruct Hv as [Hv|Hv]);
        rewrite (valid_downward _ i j (conj Hj0 Hji) Hv);
        rewrite ?orb_true_r; reflexivity. }
    now rewrite Hvj.
  - rewrite !print_nodes_indices by discriminate. cbn [snd for_each].
    rewrite !node_index_body_nonneg by assumption.
    destruct (valid i (g_node g)) eqn:Hv; [intros _|discriminate].
    now rewrite (valid_downward _ i j (conj Hj0 Hji) Hv).
Qed.

Lemma smaller_index_also_found_witness :
  ending (print_nodes plain_env three_nodes [1] [] false) = Ok tt.
Proof.
  assert (Hj : 0 <= 1 <= 2) by (split; discriminate).
  exact (proj2 (smaller_index_also_found plain_env three_nodes false []
                  2 1 Hj) eq_refl).
Defined.

(* ------------------------------------------------------------------ *)
(** ** Further properties: the histogram                                *)
(* ------------------------------------------------------------------ *)

Lemma length_le_total (c : list (string * nat)) :
  (forall x, In x c -> (0 < snd x)%nat) ->
  (List.length c <= total c)%nat.
Proof.
  induction c as [|x c IH]; intros Hpos; [apply Nat.le_refl|].
  rewrite total_cons. cbn [List.length].
  assert (0 < snd x)%nat by (apply Hpos; now left).
  assert (List.length c <= total c)%nat
    by (apply IH; intros y Hy; apply Hpos; now right).
  lia.
Qed.

Lemma Counter_counts_positive (l : list string) (x : string * nat) :
  In x (Counter l) -> (0 < snd x)%nat.
Proof.
  intros Hin. destruct (Counter_spec l) as (_ & Hkeys & _ & Hcount).
  destruct x as [k n]. cbn [snd]. rewrite (Hcount k n Hin).
  apply occurrences_pos. apply Hkeys.
  change k with (fst (k, n)). unfold keys. now apply in_map.
Qed.

(** X17.  In the histogram every entry has a count of at least one, there
    are at most as many entries as nodes, and there is no entry exactly
    when the graph has no node. *)
Theorem histogram_entries_bounded (g : GraphProto) :
  let hist := most_common (Counter (map n_op_type (g_node g))) in
  (forall x, In x hist -> (0 < snd x)%nat)
  /\ (List.length hist <= List.length (g_node g))%nat
  /\ (hist = [] <-> g_node g = []).
Proof.
  intros hist.
  assert (Hpos : forall x, In x hist -> (0 < snd x)%nat).
  { intros x Hin. unfold hist in Hin.
    exact (Counter_counts_positive _ x (proj1 (In_most_common _ _) Hin)). }
  assert (Htot : total hist = List.length (g_node g)).
  { unfold hist. rewrite total_most_common. unfold Counter.
    rewrite total_fold. now rewrite length_map. }
  split; [exact Hpos|]. split.
  - rewrite <- Htot. now apply length_le_total.
  - split; intros H.
    + rewrite H in Htot. cbn in Htot.
      destruct (g_node g); [reflexivity|discriminate].
    + unfold hist. now rewrite H.
Qed.

Lemma StronglySorted_trivial {A} (l : list A) :
  StronglySorted (fun _ _ => True) l.
Proof.
  induction l as [|x l IH]; constructor; [exact IH|].
  apply Forall_forall. trivial.
Qed.

Lemma most_common_fixes_sorted (c : list (string * nat)) :
  StronglySorted count_ge c -> most_common c = c.
Proof.
  induction 1 as [|x c Hs IH Hx]; [reflexivity|].
  cbn [most_common fold_right]. fold (most_common c). rewrite IH.
  destruct c as [|y c]; [reflexivity|].
  cbn [insert_desc]. inversion Hx as [|? ? Hxy _]; subst.
  unfold count_ge in Hxy. apply Nat.leb_le in Hxy. now rewrite Hxy.
Qed.

(** X18.  [most_common] sorts every dictionary: its result holds the same
    items (none lost, none added, none repeated), with counts that never
    increase from one item to any later one, and sorting the result again
    changes nothing. *)
Theorem most_common_sorts (c : list (string * nat)) :
  Permutation (most_common c) c
  /\ StronglySorted count_ge (most_common c)
  /\ most_common (most_common c) = most_common c.
Proof.
  assert (Hs : StronglySorted count_ge (most_common c)).
  { apply StronglySorted_impl_In with (R := desc_then (fun _ _ => True)).
    - intros a b _ _ [Hlt|[Heq _]]; unfold count_ge; lia.
    - apply most_common_sorted, StronglySorted_trivial. }
  split; [apply Permutation_most_common|]. split; [exact Hs|].
  now apply most_common_fixes_sorted.
Qed.

(** X19.  The counter of a list holds, for every element of the list,
    exactly one item, whose count is the number of occurrences of the
    element; nothing that does not occur has an item, and the counts sum
    to the length of the list. *)
Theorem Counter_counts_occurrences (l : list string) (k : string) :
  (In k l -> In (k, occurrences k l) (Counter l))
  /\ (forall n, In (k, n) (Counter l) -> In k l /\ n = occurrences k l)
  /\ NoDup (keys (Counter l))
  /\ total (Counter l) = List.length l.
Proof.
  destruct (Counter_spec l) as (Hnd & Hkeys & _ & Hcount).
  repeat apply conj.
  - intros Hin. apply Hkeys in Hin. unfold keys in Hin.
    apply in_map_iff in Hin as ([k' n] & Hk & Hin). cbn [fst] in Hk. subst k'.
    now rewrite <- (Hcount k n Hin).
  - intros n Hin. split; [|now apply Hcount].
    apply Hkeys. change k with (fst (k, n)). unfold keys. now apply in_map.
  - exact Hnd.
  - unfold Counter. now rewrite total_fold.
Qed.
